(** * Flash-sale engine: wire protocol, atomic purchase script, connection loop

    A shallow embedding of the Go sources of the flash-sale engine
    (server, benchmark client and admin tool) together with the Lua script
    the server runs inside Redis, and the properties of the purchase
    pipeline proved about it.

    Modelling conventions.
    - A Go [byte] is a Stdlib [byte]; a [[]byte] is a [list byte]; a Go
      [string] is a Rocq [string]; [uint32] and [int64] values are [Z], with
      the truncation of a conversion written out ([uint32]).
    - A [net.Conn] is the list of bytes the peer sends before it closes (or
      falls silent until the read deadline), and the bytes written back;
      the peer takes every byte written to it.
    - The Redis keyspace is a finite map from keys to values; a value is
      a string holding a decimal integer, or a list of strings.  A command
      on a key of the other kind fails with WRONGTYPE, as in Redis.  The
      program addresses [product:<id>:stock] only as a counter and
      [product:<id>:buyers] only as a list; the two key families never meet
      ([stockKey_ne_buyersKey]) and every operation keeps each key at its
      kind ([typed]).  The integer may be of any size, as a text is;
      [DECR] takes it only inside signed 64 bits.  A stock text that is not
      a decimal integer is outside the model.
    - A Lua number is a double.  The script only ever holds integers in
      one, so a Lua number is the [Z] it stands for, and reading a counter
      and subtracting round to the nearest double ([round_double]): exact
      up to 2^53, not above.
    - The Redis connection is healthy: a command reaches the store and its
      reply reaches the caller.  Publishing the purchase event is
      fire-and-forget and touches neither the keyspace nor the response; it
      is not part of the model.
    - [json.Unmarshal] is a parameter of the server section: every result
      holds for any decoder. *)

From Stdlib Require Import ZArith Lia List String Ascii DecimalString.
From Stdlib Require Import Init.Byte Strings.Byte.
From stdpp Require Import gmap strings list.

Local Open Scope Z_scope.

(* ===================================================================== *)
(** ** Bytes and big-endian words *)
(* ===================================================================== *)

(** Go's conversion [byte(v)]: the low eight bits. *)
Definition byte_of_Z (v : Z) : byte :=
  match Byte.of_N (Z.to_N (v mod 256)) with
  | Some b => b
  | None => x00
  end.

(** Go's conversion [uint32(b)] of a byte (and of any unsigned value that fits). *)
Definition Z_of_byte (b : byte) : Z := Z.of_N (Byte.to_N b).

(** Go's conversion [uint32(n)] of an [int]: reduction modulo 2^32. *)
Definition uint32 (n : Z) : Z := n mod 2 ^ 32.

Module BigEndian.

(** [binary.BigEndian.PutUint32(b, v)] on a 4-byte buffer. *)
Definition PutUint32 (v : Z) : list byte :=
  [ byte_of_Z (Z.shiftr v 24); byte_of_Z (Z.shiftr v 16);
    byte_of_Z (Z.shiftr v 8); byte_of_Z v ].

(** [binary.BigEndian.Uint32(b)]; the callers always pass 4 bytes. *)
Definition Uint32 (b : list byte) : Z :=
  match b with
  | [b0; b1; b2; b3] =>
      Z.lor (Z.lor (Z.lor (Z_of_byte b3) (Z.shiftl (Z_of_byte b2) 8))
                   (Z.shiftl (Z_of_byte b1) 16))
            (Z.shiftl (Z_of_byte b0) 24)
  | _ => 0
  end.

End BigEndian.

(* ===================================================================== *)
(** ** Frame codec: [readFrame] and [writeFrame] *)
(* ===================================================================== *)

(** The errors a frame read ends with. *)
Inductive read_error : Type :=
| EOF                                   (* io.EOF *)
| ErrUnexpectedEOF                      (* io.ErrUnexpectedEOF *)
| ErrPayloadTooLarge (length : Z).      (* fmt.Errorf("payload too large: %d", length) *)

(** [io.ReadFull(conn, buf)] with [len(buf) = n]: the [n] bytes read and the
    rest of the stream; [io.EOF] when nothing could be read, and
    [io.ErrUnexpectedEOF] when the stream ends inside the buffer. *)
Definition ReadFull (n : nat) (conn : list byte)
  : read_error + (list byte * list byte) :=
  if decide (n <= length conn)%nat then inr (take n conn, drop n conn)
  else match conn with
       | [] => inl EOF
       | _ :: _ => inl ErrUnexpectedEOF
       end.

Definition MAX_PAYLOAD : Z := 1024 * 1024.

(** Server [readFrame]: type byte, payload, and the unread rest of the stream. *)
Definition readFrame (conn : list byte)
  : read_error + (byte * list byte * list byte) :=
  match ReadFull 1 conn with
  | inl err => inl err
  | inr (typeBuf, conn1) =>
      match ReadFull 4 conn1 with
      | inl err => inl err
      | inr (lenBuf, conn2) =>
          let length := BigEndian.Uint32 lenBuf in
          if MAX_PAYLOAD <? length then inl (ErrPayloadTooLarge length)
          else
            match ReadFull (Z.to_nat length) conn2 with
            | inl err => inl err
            | inr (payload, conn3) => inr (nth 0 typeBuf x00, payload, conn3)
            end
      end
  end.

(** [writeFrame]: the bytes of the three [conn.Write] calls, in order. *)
Definition writeFrame (msgType : byte) (payload : list byte) : list byte :=
  [msgType]
    ++ BigEndian.PutUint32 (uint32 (Z.of_nat (length payload)))
    ++ payload.


(** Client [readFrame] (benchmark tool): the same reads without the size check. *)
Definition Client_readFrame (conn : list byte)
  : read_error + (byte * list byte * list byte) :=
  match ReadFull 1 conn with
  | inl err => inl err
  | inr (typeBuf, conn1) =>
      match ReadFull 4 conn1 with
      | inl err => inl err
      | inr (lenBuf, conn2) =>
          let length := BigEndian.Uint32 lenBuf in
          match ReadFull (Z.to_nat length) conn2 with
          | inl err => inl err
          | inr (payload, conn3) => inr (nth 0 typeBuf x00, payload, conn3)
          end
      end
  end.

(* ===================================================================== *)
(** ** The Redis keyspace and the commands the program issues *)
(* ===================================================================== *)

(** A stored value: a string holding a decimal integer (what [SET key <n>]
    and [DECR] leave behind), or a list. *)
Inductive value : Type :=
| VInt (n : Z)
| VList (items : list string).

Abbreviation keyspace := (gmap string value).

Inductive redis_error : Type :=
| WRONGTYPE              (* operation against a key holding the wrong kind of value *)
| ERR_overflow           (* increment or decrement would overflow *)
| ERR_not_integer.       (* value is not an integer or out of range *)

(** A command: runs against the keyspace, replies or fails, and leaves a
    keyspace behind.  Inside a script a failing [redis.call] aborts the
    script; what the earlier calls wrote stays written. *)
Definition redis (A : Type) : Type := keyspace -> (redis_error + A) * keyspace.

Definition ret {A} (a : A) : redis A := fun db => (inr a, db).

Definition bind {A B} (c : redis A) (k : A -> redis B) : redis B :=
  fun db =>
    match c db with
    | (inl e, db') => (inl e, db')
    | (inr a, db') => k a db'
    end.

Declare Scope redis_scope.
Delimit Scope redis_scope with redis.
Notation "x <- c ;; k" := (bind c (fun x => k))
  (at level 100, c at next level, right associativity) : redis_scope.
Notation "c ;;; k" := (bind c (fun _ => k))
  (at level 100, right associativity) : redis_scope.

Definition INT64_MIN : Z := - 2 ^ 63.
Definition INT64_MAX : Z := 2 ^ 63 - 1.

Module Redis.

(** [GET key]: the counter, nil for a missing key. *)
Definition GET (key : string) : redis (option Z) := fun db =>
  match db !! key with
  | None => (inr None, db)
  | Some (VInt n) => (inr (Some n), db)
  | Some (VList _) => (inl WRONGTYPE, db)
  end.

(** [SET key n]: overwrites whatever the key held. *)
Definition SET (key : string) (n : Z) : redis unit := fun db =>
  (inr tt, <[key := VInt n]> db).

(** [DEL key]. *)
Definition DEL (key : string) : redis unit := fun db =>
  (inr tt, delete key db).

(** [DECR key]: a missing key counts as 0; an integer outside signed 64
    bits is refused; replies the new value. *)
Definition DECR (key : string) : redis Z := fun db =>
  match db !! key with
  | None => (inr (-1), <[key := VInt (-1)]> db)
  | Some (VInt n) =>
      if (n <? INT64_MIN) || (INT64_MAX <? n) then (inl ERR_not_integer, db)
      else if n =? INT64_MIN then (inl ERR_overflow, db)
      else (inr (n - 1), <[key := VInt (n - 1)]> db)
  | Some (VList _) => (inl WRONGTYPE, db)
  end.

(** [LPUSH key element]: inserts at the head of the list, creating it
    when the key is missing; replies the new length. *)
Definition LPUSH (key element : string) : redis Z := fun db =>
  match db !! key with
  | None => (inr 1, <[key := VList [element]]> db)
  | Some (VList items) =>
      (inr (Z.of_nat (S (length items))), <[key := VList (element :: items)]> db)
  | Some (VInt _) => (inl WRONGTYPE, db)
  end.

(** [LLEN key]: 0 for a missing key. *)
Definition LLEN (key : string) : redis Z := fun db =>
  match db !! key with
  | None => (inr 0, db)
  | Some (VList items) => (inr (Z.of_nat (length items)), db)
  | Some (VInt _) => (inl WRONGTYPE, db)
  end.

(** The elements of [items] from index [start] to index [stop], both
    inclusive, head first; a negative index counts from the tail. *)
Definition range (items : list string) (start stop : Z) : list string :=
  let llen := Z.of_nat (length items) in
  let start := if start <? 0 then llen + start else start in
  let stop := if stop <? 0 then llen + stop else stop in
  let start := if start <? 0 then 0 else start in
  if (stop <? start) || (llen <=? start) then []
  else
    let stop := if llen <=? stop then llen - 1 else stop in
    take (Z.to_nat (stop - start + 1)) (drop (Z.to_nat start) items).

(** [LRANGE key start stop]. *)
Definition LRANGE (key : string) (start stop : Z) : redis (list string) := fun db =>
  match db !! key with
  | None => (inr [], db)
  | Some (VList items) => (inr (range items start stop), db)
  | Some (VInt _) => (inl WRONGTYPE, db)
  end.

End Redis.

(** [fmt.Sprintf("product:%s:stock", id)] and [fmt.Sprintf("product:%s:buyers", id)]. *)
Definition stockKey (productID : string) : string :=
  "product:" +:+ productID +:+ ":stock".

Definition buyersKey (productID : string) : string :=
  "product:" +:+ productID +:+ ":buyers".

(* ===================================================================== *)
(** ** The Lua script *)
(* ===================================================================== *)

Local Open Scope redis_scope.

(** The double nearest to the integer [n], ties to the even mantissa (the
    rounding of [strtod] and of double arithmetic), as the integer it is.
    Every integer of magnitude up to 2^53 is a double; above, 53 bits of
    mantissa are kept.  (Beyond the largest double the true result is
    infinity; there the model keeps a large number of the same sign, and
    only the sign is ever looked at.) *)
Definition round_double (n : Z) : Z :=
  let a := Z.abs n in
  if a <=? 2 ^ 53 then n
  else
    let e := Z.log2 a - 52 in
    let q := Z.shiftr a e in
    let r := Z.land a (Z.ones e) in
    let half := Z.shiftl 1 (e - 1) in
    let q' := if (half <? r) || ((r =? half) && Z.odd q) then q + 1 else q in
    Z.sgn n * Z.shiftl q' e.

(** Lua's [tonumber] on the reply to [GET]: nil for a missing key (the
    reply is [false]), the double read from the digits otherwise. *)
Definition tonumber (reply : option Z) : option Z :=
  match reply with
  | Some n => Some (round_double n)
  | None => None
  end.

(** Lua's [a - b] on numbers. *)
Definition lua_sub (a b : Z) : Z := round_double (a - b).

(** A Lua number in the table the script returns becomes an integer reply
    by the C conversion to [long long]: the number itself inside signed 64
    bits; outside, where C leaves the result open, the minimum, which is
    what the conversion instruction of x86-64 gives. *)
Definition lua_to_integer (d : Z) : Z :=
  if (INT64_MIN <=? d) && (d <=? INT64_MAX) then d else INT64_MIN.

(** [luaScript], run with [KEYS[1]], [KEYS[2]] and [ARGV[1]].  [stock] is
    [tonumber] of the reply to [GET]: nil when the key is missing.  The
    reply is the Lua table the script returns, as integers. *)
Definition luaScript (KEYS1 KEYS2 ARGV1 : string) : redis (list Z) :=
  reply <- Redis.GET KEYS1 ;;
  match tonumber reply with
  | Some stock =>
      if 0 <? stock then
        Redis.DECR KEYS1 ;;;
        Redis.LPUSH KEYS2 ARGV1 ;;;
        ret [lua_to_integer 1; lua_to_integer (lua_sub stock 1)]
      else ret [lua_to_integer 0; lua_to_integer 0]
  | None => ret [lua_to_integer 0; lua_to_integer 0]
  end.

(** The atomic check-and-decrement of a product on behalf of a buyer: the
    script with the two keys of the product, as the server invokes it. *)
Definition tryDecrement (productID userID : string) : redis (list Z) :=
  luaScript (stockKey productID) (buyersKey productID) userID.

(** The remaining stock the script reports when it has read the counter
    [n]: [stock - 1] on Lua numbers, [stock] being [tonumber] of the digits,
    turned into an integer reply. *)
Definition reported_remaining (n : Z) : Z :=
  lua_to_integer (lua_sub (round_double n) 1).

(** Whether a reply of the script reports a decrement ([success == 1]). *)
Definition decremented (reply : redis_error + list Z) : bool :=
  match reply with
  | inr (success :: _) => success =? 1
  | _ => false
  end.

(* ===================================================================== *)
(** ** Requests, responses and their JSON form *)
(* ===================================================================== *)

Definition MSG_ATTEMPT_PURCHASE : byte := x01.

Definition STATUS_SUCCESS : string := "SUCCESS".
Definition STATUS_SOLD_OUT : string := "SOLD_OUT".
Definition STATUS_ERROR : string := "ERROR".

Record PurchaseRequest : Type := {
  ProductID : string;
  UserID : string
}.

Record PurchaseResponse : Type := {
  Status : string;
  RemainingStock : Z;      (* json:"remaining_stock,omitempty" *)
  Error : string           (* json:"error,omitempty" *)
}.

Definition dquote : string := String "034"%char EmptyString.

Definition hex_digit (n : nat) : ascii :=
  nth n (list_ascii_of_string "0123456789abcdef") "0"%char.

(** One byte of a string inside a JSON string literal, as [encoding/json]
    writes it with HTML escaping on (the default of [json.Marshal]).  Bytes
    from 0x80 up are copied: the strings of this program are valid UTF-8
    without U+2028 and U+2029. *)
Definition json_escape_char (c : ascii) : string :=
  let n := nat_of_ascii c in
  if (n =? 34)%nat then "\" +:+ dquote
  else if (n =? 92)%nat then "\\"
  else if (n =? 10)%nat then "\n"
  else if (n =? 13)%nat then "\r"
  else if (n =? 9)%nat then "\t"
  else if (n <? 32)%nat || (n =? 60)%nat || (n =? 62)%nat || (n =? 38)%nat then
    "\u00" +:+ String (hex_digit (n / 16)) (String (hex_digit (n mod 16)) EmptyString)
  else String c EmptyString.

Fixpoint json_escape (s : string) : string :=
  match s with
  | EmptyString => EmptyString
  | String c s' => json_escape_char c +:+ json_escape s'
  end.

Definition json_string (s : string) : string := dquote +:+ json_escape s +:+ dquote.

(** A JSON number for an [int64]: decimal digits, a minus sign when negative. *)
Definition json_int (n : Z) : string := NilZero.string_of_int (Z.to_int n).

(** The text [json.Marshal] produces for a [PurchaseResponse]: the fields in
    declaration order, a field tagged [omitempty] left out when it holds the
    zero value of its type (0 for the integer, the empty string). *)
Definition json_text (resp : PurchaseResponse) : string :=
  "{" +:+ dquote +:+ "status" +:+ dquote +:+ ":" +:+ json_string (Status resp)
    +:+ (if RemainingStock resp =? 0 then ""
         else "," +:+ dquote +:+ "remaining_stock" +:+ dquote +:+ ":"
                  +:+ json_int (RemainingStock resp))
    +:+ (if String.eqb (Error resp) "" then ""
         else "," +:+ dquote +:+ "error" +:+ dquote +:+ ":" +:+ json_string (Error resp))
    +:+ "}".

Definition json_Marshal (resp : PurchaseResponse) : list byte :=
  list_byte_of_string (json_text resp).

(** The text of a reply error, as [fmt.Sprintf("redis error: %v", err)]
    shows it, without the script position Redis adds to it. *)
Definition redis_error_text (e : redis_error) : string :=
  match e with
  | WRONGTYPE => "WRONGTYPE Operation against a key holding the wrong kind of value"
  | ERR_overflow => "ERR increment or decrement would overflow"
  | ERR_not_integer => "ERR value is not an integer or out of range"
  end.

(* ===================================================================== *)
(** ** The server *)
(* ===================================================================== *)

(** Why [handleConnection] returned. *)
Inductive closed : Type :=
| CtxDone                       (* the shutdown signal was observed *)
| ReadFailed (err : read_error). (* readFrame failed *)

Section Server.

(** [json.Unmarshal(payload, &req)]: the decoded request, or none on a
    decoding error.  A field absent from the payload is left empty. *)
Variable json_Unmarshal : list byte -> option PurchaseRequest.

(** [s.redis.EvalSha(ctx, luaHash, {stockKey, buyersKey}, userID)]: runs
    the loaded script; the keyspace it leaves and its reply or error. *)
Definition EvalSha (stockKey buyersKey userID : string) : redis (list Z) :=
  luaScript stockKey buyersKey userID.

(** [handlePurchaseAttempt]: the response payload and the keyspace after. *)
Definition handlePurchaseAttempt (payload : list byte) (db : keyspace)
  : list byte * keyspace :=
  match json_Unmarshal payload with
  | None =>
      (json_Marshal {| Status := STATUS_ERROR; RemainingStock := 0;
                       Error := "invalid json" |}, db)
  | Some req =>
      if String.eqb (ProductID req) "" || String.eqb (UserID req) "" then
        (json_Marshal {| Status := STATUS_ERROR; RemainingStock := 0;
                         Error := "missing product_id or user_id" |}, db)
      else
        let stockKey := stockKey (ProductID req) in
        let buyersKey := buyersKey (ProductID req) in
        match EvalSha stockKey buyersKey (UserID req) db with
        | (inl err, db') =>
            (json_Marshal {| Status := STATUS_ERROR; RemainingStock := 0;
                             Error := "redis error: " +:+ redis_error_text err |}, db')
        | (inr arr, db') =>
            match arr with
            | [success; remaining] =>
                if success =? 1 then
                  (json_Marshal {| Status := STATUS_SUCCESS;
                                   RemainingStock := remaining;
                                   Error := "" |}, db')
                else
                  (json_Marshal {| Status := STATUS_SOLD_OUT; RemainingStock := 0;
                                   Error := "" |}, db')
            | _ =>
                (json_Marshal {| Status := STATUS_ERROR; RemainingStock := 0;
                                 Error := "invalid lua response" |}, db')
            end
        end
  end.

(** [processMessage]. *)
Definition processMessage (msgType : byte) (payload : list byte) (db : keyspace)
  : list byte * keyspace :=
  if Byte.eqb msgType MSG_ATTEMPT_PURCHASE then handlePurchaseAttempt payload db
  else
    (json_Marshal {| Status := STATUS_ERROR; RemainingStock := 0;
                     Error := "unknown message type" |}, db).

(** [handleConnection] on the bytes [conn] the peer sends: the bytes
    written back, the keyspace after, and why the handler returned.
    [live] is the number of loop iterations that start before the
    shutdown signal is seen at the top of the loop. *)
Fixpoint handleConnection (live : nat) (conn : list byte) (db : keyspace)
  : list byte * keyspace * closed :=
  match live with
  | O => ([], db, CtxDone)
  | S live' =>
      match readFrame conn with
      | inl err => ([], db, ReadFailed err)
      | inr (msgType, payload, conn') =>
          let '(response, db') := processMessage msgType payload db in
          let '(written, db'', why) := handleConnection live' conn' db' in
          (writeFrame msgType response ++ written, db'', why)
      end
  end.

End Server.

(* ===================================================================== *)
(** ** The admin tool *)
(* ===================================================================== *)

(** [initProduct]: sets the counter and clears the buyers list.  [stock]
    is the integer the command-line text denotes; the text is stored as it
    is, whatever its size. *)
Definition initProduct (productID : string) (stock : Z) (db : keyspace) : keyspace :=
  let stockKey := stockKey productID in
  let buyersKey := buyersKey productID in
  let db1 := snd (Redis.SET stockKey stock db) in
  snd (Redis.DEL buyersKey db1).

(** [resetProduct]: deletes both keys. *)
Definition resetProduct (productID : string) (db : keyspace) : keyspace :=
  let stockKey := stockKey productID in
  let buyersKey := buyersKey productID in
  let db1 := snd (Redis.DEL stockKey db) in
  snd (Redis.DEL buyersKey db1).

(** What [showStatus] prints. *)
Inductive status_report : Type :=
| NotFound                                  (* "Product '%s' not found" *)
| Report (stock : Z) (buyerCount : Z)       (* remaining stock, successful buyers *)
| Fatal (err : redis_error).                (* log.Fatalf *)

Definition showStatus (productID : string) (db : keyspace) : status_report :=
  let stockKey := stockKey productID in
  let buyersKey := buyersKey productID in
  match fst (Redis.GET stockKey db) with
  | inl err => Fatal err
  | inr None => NotFound
  | inr (Some stock) =>
      match fst (Redis.LLEN buyersKey db) with
      | inl err => Fatal err
      | inr buyerCount => Report stock buyerCount
      end
  end.

(** [showBuyers]: the buyers in the order they are printed, numbered from 1. *)
Definition showBuyers (productID : string) (db : keyspace) : redis_error + list string :=
  let buyersKey := buyersKey productID in
  fst (Redis.LRANGE buyersKey 0 (-1) db).

(* ===================================================================== *)
(** ** Histories of atomic invocations *)
(* ===================================================================== *)

(** Redis runs one script at a time, so whatever the number of connections
    and server processes, the keyspace goes through the invocations of the
    script one after the other.  A history is the list of the invocations
    in that order: each the product and the buyer. *)
Definition history : Type := list (string * string).

(** The replies of a history, in order, and the keyspace after it. *)
Fixpoint run (h : history) (db : keyspace)
  : list (redis_error + list Z) * keyspace :=
  match h with
  | [] => ([], db)
  | (productID, userID) :: h' =>
      let '(reply, db1) := tryDecrement productID userID db in
      let '(replies, db2) := run h' db1 in
      (reply :: replies, db2)
  end.

(** The buyers of the invocations for [productID] that reported a
    decrement, in the order of the invocations. *)
Fixpoint winners (productID : string) (h : history) (db : keyspace) : list string :=
  match h with
  | [] => []
  | (p, userID) :: h' =>
      let '(reply, db1) := tryDecrement p userID db in
      if String.eqb p productID && decremented reply
      then userID :: winners productID h' db1
      else winners productID h' db1
  end.

(** The remaining stock and the buyer ledger of a product, as stored. *)
Definition remaining_stock (productID : string) (db : keyspace) : option Z :=
  match db !! stockKey productID with
  | Some (VInt n) => Some n
  | _ => None
  end.

Definition buyer_ledger (productID : string) (db : keyspace) : list string :=
  match db !! buyersKey productID with
  | Some (VList items) => items
  | _ => []
  end.

(* ===================================================================== *)
(** ** A decoder for the payloads of the bundled client *)
(* ===================================================================== *)

(** The rest of [s] after the prefix [p], when [s] starts with [p]. *)
Fixpoint strip_prefix (p s : string) : option string :=
  match p, s with
  | EmptyString, _ => Some s
  | String a p', String b s' => if Ascii.eqb a b then strip_prefix p' s' else None
  | String _ _, EmptyString => None
  end.

(** The text up to the first double quote of [s], and the text after it. *)
Fixpoint until_dquote (s : string) : option (string * string) :=
  match s with
  | EmptyString => None
  | String c s' =>
      if Ascii.eqb c "034"%char then Some (EmptyString, s')
      else match until_dquote s' with
           | Some (w, rest) => Some (String c w, rest)
           | None => None
           end
  end.

(** Decodes [{"product_id":"<p>","user_id":"<u>"}], the payload the client's
    [AttemptPurchase] sends for identifiers that need no escaping.  It is
    one instance of the decoder the server section is parametrised by. *)
Definition decode_request (payload : list byte) : option PurchaseRequest :=
  match strip_prefix ("{" +:+ dquote +:+ "product_id" +:+ dquote +:+ ":" +:+ dquote)
                     (string_of_list_byte payload) with
  | None => None
  | Some s1 =>
      match until_dquote s1 with
      | None => None
      | Some (p, s2) =>
          match strip_prefix ("," +:+ dquote +:+ "user_id" +:+ dquote +:+ ":" +:+ dquote) s2 with
          | None => None
          | Some s3 =>
              match until_dquote s3 with
              | None => None
              | Some (u, s4) =>
                  if String.eqb s4 "}" then Some {| ProductID := p; UserID := u |}
                  else None
              end
          end
      end
  end.

(** The payload [json.Marshal(req)] of the client, for such identifiers. *)
Definition encode_request (req : PurchaseRequest) : list byte :=
  list_byte_of_string
    ("{" +:+ dquote +:+ "product_id" +:+ dquote +:+ ":" +:+ json_string (ProductID req)
         +:+ "," +:+ dquote +:+ "user_id" +:+ dquote +:+ ":" +:+ json_string (UserID req)
         +:+ "}").


(* ===================================================================== *)
(** ** Vocabulary of the specification *)
(* ===================================================================== *)

(** The three shapes of a response. *)
Definition SUCCESS (remaining_stock : Z) : PurchaseResponse :=
  {| Status := STATUS_SUCCESS; RemainingStock := remaining_stock; Error := "" |}.

Definition SOLD_OUT : PurchaseResponse :=
  {| Status := STATUS_SOLD_OUT; RemainingStock := 0; Error := "" |}.

Definition ERROR (error : string) : PurchaseResponse :=
  {| Status := STATUS_ERROR; RemainingStock := 0; Error := error |}.

(** Sample data for the worked instances. *)
Definition sample_request : PurchaseRequest :=
  {| ProductID := "iphone15"; UserID := "user_1" |}.

Definition sample_history : history :=
  [ ("iphone15", "user_1"); ("ipad", "user_2");
    ("iphone15", "user_3"); ("iphone15", "user_4") ]%string.

(** Each key of a product holds the kind of value the program keeps there:
    the stock key no list, the buyers key no counter. *)
Definition well_typed (productID : string) (db : keyspace) : Prop :=
  (forall items, db !! stockKey productID <> Some (VList items))
  /\ (forall n, db !! buyersKey productID <> Some (VInt n)).

Definition typed (db : keyspace) : Prop := forall productID, well_typed productID db.

(** The record of a product: its counter holds [stock], its ledger reads
    [ledger], and the buyers key is either missing or a list. *)
Definition product_state (productID : string) (db : keyspace)
    (stock : Z) (ledger : list string) : Prop :=
  db !! stockKey productID = Some (VInt stock)
  /\ buyer_ledger productID db = ledger
  /\ (forall n, db !! buyersKey productID <> Some (VInt n)).

(* ===================================================================== *)
(** ** Sequences of operations, of invocations and of frames *)
(* ===================================================================== *)

(** What changes the keyspace: the two writing commands of the admin tool
    and the purchase script. *)
Inductive operation : Type :=
| Init (productID : string) (stock : Z)        (* setup init <product_id> <stock> *)
| Reset (productID : string)                   (* setup reset <product_id> *)
| Attempt (productID userID : string).         (* one run of the script *)

Definition apply_operation (db : keyspace) (o : operation) : keyspace :=
  match o with
  | Init productID stock => initProduct productID stock db
  | Reset productID => resetProduct productID db
  | Attempt productID userID => (tryDecrement productID userID db).2
  end.

Definition apply_operations (ops : list operation) (db : keyspace) : keyspace :=
  fold_left apply_operation ops db.

(** Every init of the sequence is given a stock of at most 2^53. *)
Definition inits_within (ops : list operation) : Prop :=
  Forall (fun o => match o with
                   | Init _ stock => stock <= 2 ^ 53
                   | _ => True
                   end) ops.

(** No counter of the keyspace is above 2^53. *)
Definition counters_within (db : keyspace) : Prop :=
  forall k n, db !! k = Some (VInt n) -> n <= 2 ^ 53.


(** The remaining stock reported by each invocation for [productID] that
    reported a decrement, in the order of the invocations. *)
Fixpoint sold_units (productID : string) (h : history) (db : keyspace) : list Z :=
  match h with
  | [] => []
  | (p, userID) :: h' =>
      let '(reply, db1) := tryDecrement p userID db in
      match reply with
      | inr [success; remaining] =>
          if String.eqb p productID && (success =? 1)
          then remaining :: sold_units productID h' db1
          else sold_units productID h' db1
      | _ => sold_units productID h' db1
      end
  end.

(** The bytes of a sequence of frames, each a type byte and a payload. *)
Definition frames_bytes (frames : list (byte * list byte)) : list byte :=
  flat_map (fun f => writeFrame f.1 f.2) frames.

(** [processMessage] on each frame in turn: the response to each, under
    the type byte of its request, and the keyspace after the last. *)
Fixpoint serve (json_Unmarshal : list byte -> option PurchaseRequest)
    (frames : list (byte * list byte)) (db : keyspace)
  : list (byte * list byte) * keyspace :=
  match frames with
  | [] => ([], db)
  | (msgType, payload) :: frames' =>
      let '(response, db1) := processMessage json_Unmarshal msgType payload db in
      let '(responses, db2) := serve json_Unmarshal frames' db1 in
      ((msgType, response) :: responses, db2)
  end.

(** The script invocations a sequence of frames leads to: one for each
    frame of type 0x01 whose payload decodes to a request with both ids,
    in the order of the frames. *)
Definition invocations (json_Unmarshal : list byte -> option PurchaseRequest)
    (frames : list (byte * list byte)) : history :=
  flat_map
    (fun f =>
       if Byte.eqb f.1 MSG_ATTEMPT_PURCHASE then
         match json_Unmarshal f.2 with
         | Some req =>
             if String.eqb (ProductID req) "" || String.eqb (UserID req) "" then []
             else [(ProductID req, UserID req)]
         | None => []
         end
       else [])
    frames.

(** Sample data: a purchase frame, a frame of an unknown type, a second
    purchase frame. *)
Definition sample_frames : list (byte * list byte) :=
  [ (x01, encode_request sample_request);
    (x02, [x7b; x7d]);
    (x01, encode_request sample_request) ].

(* ===================================================================== *)
(** ** Lemmas on the codec *)
(* ===================================================================== *)

Lemma Z_of_byte_range (b : byte) : 0 <= Z_of_byte b < 256.
Proof.
  unfold Z_of_byte. pose proof (Byte.to_N_bounded b) as H.
  split; [apply N2Z.is_nonneg | lia].
Qed.

Lemma Z_of_byte_of_Z (v : Z) : Z_of_byte (byte_of_Z v) = v mod 256.
Proof.
  unfold Z_of_byte, byte_of_Z.
  assert (Hr : 0 <= v mod 256 < 256) by (apply Z.mod_pos_bound; lia).
  destruct (Byte.of_N (Z.to_N (v mod 256))) as [b|] eqn:E.
  - apply Byte.to_of_N in E. rewrite E. rewrite Z2N.id; lia.
  - apply Byte.of_N_None_iff in E. lia.
Qed.

Lemma byte_of_Z_of_byte (b : byte) : byte_of_Z (Z_of_byte b) = b.
Proof.
  unfold byte_of_Z. pose proof (Z_of_byte_range b) as Hr.
  rewrite Z.mod_small by exact Hr.
  unfold Z_of_byte. rewrite N2Z.id, Byte.of_to_N. reflexivity.
Qed.

Lemma testbit_byte (v n : Z) :
  0 <= n -> Z.testbit (Z_of_byte (byte_of_Z v)) n = if n <? 8 then Z.testbit v n else false.
Proof.
  intros Hn. rewrite Z_of_byte_of_Z. change 256 with (2 ^ 8).
  rewrite Z.testbit_mod_pow2 by lia.
  destruct (n <? 8); [rewrite andb_true_l|]; reflexivity.
Qed.

Lemma Uint32_PutUint32 (v : Z) :
  0 <= v < 2 ^ 32 -> BigEndian.Uint32 (BigEndian.PutUint32 v) = v.
Proof.
  intros Hv. unfold BigEndian.Uint32, BigEndian.PutUint32.
  apply Z.bits_inj'. intros n Hn.
  rewrite !Z.lor_spec, !Z.shiftl_spec by lia.
  rewrite testbit_byte by lia.
  destruct (Z.ltb_spec n 8) as [H8|H8].
  { rewrite (Z.testbit_neg_r _ (n - 8)), (Z.testbit_neg_r _ (n - 16)),
      (Z.testbit_neg_r _ (n - 24)) by lia.
    rewrite !orb_false_r. reflexivity. }
  rewrite testbit_byte by lia. rewrite Z.shiftr_spec by lia.
  replace (n - 8 + 8) with n by lia.
  destruct (Z.ltb_spec (n - 8) 8) as [H16|H16].
  { rewrite (Z.testbit_neg_r _ (n - 16)), (Z.testbit_neg_r _ (n - 24)) by lia.
    rewrite !orb_false_r. reflexivity. }
  destruct (Z.ltb_spec n 24) as [H24|H24].
  { rewrite testbit_byte by lia. rewrite Z.shiftr_spec by lia.
    replace (n - 16 + 16) with n by lia.
    replace (n - 16 <? 8) with true by (symmetry; apply Z.ltb_lt; lia).
    rewrite (Z.testbit_neg_r _ (n - 24)) by lia.
    rewrite !orb_false_r. reflexivity. }
  rewrite !testbit_byte by lia. rewrite !Z.shiftr_spec by lia.
  replace (n - 16 <? 8) with false by (symmetry; apply Z.ltb_ge; lia).
  replace (n - 24 + 24) with n by lia.
  destruct (Z.ltb_spec (n - 24) 8) as [H32|H32]; [reflexivity|].
  simpl. symmetry.
  destruct (Z.eq_dec v 0) as [->|Hz]; [apply Z.bits_0|].
  apply Z.bits_above_log2; [lia|].
  apply Z.log2_lt_pow2; [lia|].
  assert (2 ^ 32 <= 2 ^ n) by (apply Z.pow_le_mono_r; lia). lia.
Qed.

Lemma ReadFull_app (l rest : list byte) :
  ReadFull (length l) (l ++ rest) = inr (l, rest).
Proof.
  unfold ReadFull. rewrite decide_True by (rewrite length_app; lia).
  rewrite take_app_length, drop_app_length. reflexivity.
Qed.

(* ===================================================================== *)
(** ** Keys *)
(* ===================================================================== *)

Lemma list_ascii_of_string_app (s t : string) :
  list_ascii_of_string (s +:+ t) = list_ascii_of_string s ++ list_ascii_of_string t.
Proof. induction s as [|c s IH]; simpl; [reflexivity | now rewrite IH]. Qed.

Lemma list_ascii_of_string_inj (s t : string) :
  list_ascii_of_string s = list_ascii_of_string t -> s = t.
Proof.
  intros H. rewrite <- (string_of_list_ascii_of_string s),
    <- (string_of_list_ascii_of_string t). now rewrite H.
Qed.

Lemma append_inv_tail (s t u : string) : s +:+ u = t +:+ u -> s = t.
Proof.
  intros H. apply list_ascii_of_string_inj.
  apply (f_equal list_ascii_of_string) in H.
  rewrite !list_ascii_of_string_app in H.
  now apply app_inv_tail in H.
Qed.

Lemma stockKey_inj (p q : string) : stockKey p = stockKey q -> p = q.
Proof.
  unfold stockKey. intros H. apply String.app_inj in H.
  now apply append_inv_tail in H.
Qed.

Lemma buyersKey_inj (p q : string) : buyersKey p = buyersKey q -> p = q.
Proof.
  unfold buyersKey. intros H. apply String.app_inj in H.
  now apply append_inv_tail in H.
Qed.

Lemma stockKey_ne_buyersKey (p q : string) : stockKey p <> buyersKey q.
Proof.
  unfold stockKey, buyersKey. intros H. apply String.app_inj in H.
  apply (f_equal list_ascii_of_string) in H.
  rewrite !list_ascii_of_string_app in H.
  apply (f_equal (@rev ascii)) in H.
  rewrite !rev_app_distr in H. simpl in H. discriminate H.
Qed.

Lemma stockKey_ne (p q : string) : p <> q -> stockKey p <> stockKey q.
Proof. intros H E. now apply H, stockKey_inj. Qed.

Lemma buyersKey_ne (p q : string) : p <> q -> buyersKey p <> buyersKey q.
Proof. intros H E. now apply H, buyersKey_inj. Qed.

(* ===================================================================== *)
(** ** One invocation of the script *)
(* ===================================================================== *)

Lemma round_double_exact (n : Z) : Z.abs n <= 2 ^ 53 -> round_double n = n.
Proof.
  intros H. unfold round_double. cbv zeta.
  now replace (Z.abs n <=? 2 ^ 53) with true by (symmetry; apply Z.leb_le; exact H).
Qed.

(** Rounding keeps the sign: the script sells exactly when the counter is
    positive. *)
Lemma round_double_pos (n : Z) : (0 <? round_double n) = (0 <? n).
Proof.
  unfold round_double. cbv zeta.
  destruct (Z.leb_spec (Z.abs n) (2 ^ 53)) as [Hs|Hb]; [reflexivity|].
  set (a := Z.abs n) in *. set (e := Z.log2 a - 52).
  assert (Ha : 0 < a) by lia.
  assert (Hlog : 53 <= Z.log2 a).
  { rewrite <- (Z.log2_pow2 53) by lia. apply Z.log2_le_mono. lia. }
  destruct (Z.log2_spec a Ha) as [Hlo _].
  assert (He : 0 < 2 ^ e) by (apply Z.pow_pos_nonneg; unfold e; lia).
  assert (Hle : 2 ^ e <= 2 ^ Z.log2 a) by (apply Z.pow_le_mono_r; unfold e; lia).
  assert (Hq : 1 <= Z.shiftr a e).
  { rewrite Z.shiftr_div_pow2 by (unfold e; lia).
    apply Z.div_le_lower_bound; lia. }
  set (q := Z.shiftr a e) in *.
  set (q' := if (Z.shiftl 1 (e - 1) <? Z.land a (Z.ones e))
                || ((Z.land a (Z.ones e) =? Z.shiftl 1 (e - 1)) && Z.odd q)
             then q + 1 else q).
  assert (Hq' : 1 <= q') by (unfold q'; destruct (_ || _); lia).
  assert (Hx : 0 < Z.shiftl q' e).
  { rewrite Z.shiftl_mul_pow2 by (unfold e; lia). apply Z.mul_pos_pos; lia. }
  destruct (Z.ltb_spec 0 n) as [Hp|Hn].
  - rewrite Z.sgn_pos by exact Hp. apply Z.ltb_lt. lia.
  - assert (n < 0) by (unfold a in Ha; lia).
    rewrite Z.sgn_neg by assumption. apply Z.ltb_ge. lia.
Qed.

(** Up to 2^53 the script reports the counter less one. *)
Lemma reported_remaining_exact (n : Z) :
  0 < n -> n <= 2 ^ 53 -> reported_remaining n = n - 1.
Proof.
  intros Hpos Hmax. unfold reported_remaining, lua_sub.
  rewrite (round_double_exact n), (round_double_exact (n - 1)) by lia.
  unfold lua_to_integer, INT64_MIN, INT64_MAX.
  replace (- 2 ^ 63 <=? n - 1) with true by (symmetry; apply Z.leb_le; lia).
  replace (n - 1 <=? 2 ^ 63 - 1) with true by (symmetry; apply Z.leb_le; lia).
  reflexivity.
Qed.

Lemma DECR_counter (k : string) (n : Z) (db : keyspace) :
  db !! k = Some (VInt n) -> 0 < n -> n <= INT64_MAX ->
  Redis.DECR k db = (inr (n - 1), <[k := VInt (n - 1)]> db).
Proof.
  intros Hk Hpos Hmax. unfold Redis.DECR. rewrite Hk.
  unfold INT64_MIN, INT64_MAX in *.
  replace (n <? - 2 ^ 63) with false by (symmetry; apply Z.ltb_ge; lia).
  replace (2 ^ 63 - 1 <? n) with false by (symmetry; apply Z.ltb_ge; lia).
  replace (n =? - 2 ^ 63) with false by (symmetry; apply Z.eqb_neq; lia).
  reflexivity.
Qed.

Lemma DECR_out_of_range (k : string) (n : Z) (db : keyspace) :
  db !! k = Some (VInt n) -> INT64_MAX < n ->
  Redis.DECR k db = (inl ERR_not_integer, db).
Proof.
  intros Hk Hbig. unfold Redis.DECR. rewrite Hk.
  replace (INT64_MAX <? n) with true by (symmetry; apply Z.ltb_lt; exact Hbig).
  now rewrite orb_true_r.
Qed.

(** [DECR] fails and writes nothing, or replies the counter it leaves. *)
Lemma DECR_cases (k : string) (db : keyspace) :
  (exists e, Redis.DECR k db = (inl e, db))
  \/ (exists r, Redis.DECR k db = (inr r, <[k := VInt r]> db)).
Proof.
  unfold Redis.DECR.
  destruct (db !! k) as [[n|items]|]; eauto.
  destruct ((n <? INT64_MIN) || (INT64_MAX <? n)); eauto.
  destruct (n =? INT64_MIN); eauto.
Qed.

(** What an invocation can leave behind: nothing new, a counter at the
    first key, or a counter at the first key and a list at the second. *)
Lemma luaScript_writes (k1 k2 a : string) (db : keyspace) :
  (luaScript k1 k2 a db).2 = db
  \/ (exists n, (luaScript k1 k2 a db).2 = <[k1 := VInt n]> db)
  \/ (exists n l, (luaScript k1 k2 a db).2 = <[k2 := VList l]> (<[k1 := VInt n]> db)).
Proof.
  unfold luaScript, bind, ret, Redis.GET.
  destruct (db !! k1) as [[n|items]|] eqn:E1; simpl; auto.
  destruct (0 <? round_double n); simpl; auto.
  destruct (DECR_cases k1 db) as [(e & E)|(r & E)]; rewrite E; [auto|].
  unfold Redis.LPUSH.
  destruct (<[k1:=VInt r]> db !! k2) as [[x|items]|]; simpl; eauto.
Qed.

(** The script writes no key but the two it is given. *)
Lemma luaScript_frame (k1 k2 a : string) (db : keyspace) (k : string) :
  k <> k1 -> k <> k2 -> (luaScript k1 k2 a db).2 !! k = db !! k.
Proof.
  intros H1 H2.
  destruct (luaScript_writes k1 k2 a db) as [E|[(n & E)|(n & l & E)]]; rewrite E.
  - reflexivity.
  - now rewrite lookup_insert_ne by congruence.
  - now rewrite !lookup_insert_ne by congruence.
Qed.

(** Stock left, within signed 64 bits: the counter goes down by one, the
    buyer goes to the head of the ledger, and the script replies 1 and the
    remaining stock it computes. *)
Lemma tryDecrement_in_stock (p u : string) (db : keyspace) (n : Z) :
  db !! stockKey p = Some (VInt n) -> 0 < n -> n <= INT64_MAX ->
  (forall m, db !! buyersKey p <> Some (VInt m)) ->
  tryDecrement p u db
  = (inr [1; reported_remaining n],
     <[buyersKey p := VList (u :: buyer_ledger p db)]>
       (<[stockKey p := VInt (n - 1)]> db)).
Proof.
  intros Hs Hn Hmax Hb.
  unfold tryDecrement, luaScript, bind, ret, Redis.GET. rewrite Hs. cbn [tonumber].
  rewrite round_double_pos.
  replace (0 <? n) with true by (symmetry; apply Z.ltb_lt; exact Hn).
  rewrite (DECR_counter _ n db Hs Hn Hmax).
  unfold Redis.LPUSH, buyer_ledger.
  rewrite lookup_insert_ne by apply stockKey_ne_buyersKey.
  destruct (db !! buyersKey p) as [[m|items]|] eqn:Eb.
  - exfalso. now apply (Hb m).
  - reflexivity.
  - reflexivity.
Qed.

(** No counter, or a counter that is not positive: the script replies
    [{0, 0}] and writes nothing. *)
Lemma tryDecrement_no_stock (p u : string) (db : keyspace) :
  (db !! stockKey p = None
   \/ exists n, db !! stockKey p = Some (VInt n) /\ n <= 0) ->
  tryDecrement p u db = (inr [0; 0], db).
Proof.
  intros [Hs|(n & Hs & Hn)];
    unfold tryDecrement, luaScript, bind, ret, Redis.GET; rewrite Hs; cbn [tonumber].
  - reflexivity.
  - rewrite round_double_pos.
    replace (0 <? n) with false by (symmetry; apply Z.ltb_ge; exact Hn).
    reflexivity.
Qed.

(** A counter above signed 64 bits: [DECR] refuses it, the script fails
    and writes nothing. *)
Lemma tryDecrement_too_large (p u : string) (db : keyspace) (n : Z) :
  db !! stockKey p = Some (VInt n) -> INT64_MAX < n ->
  tryDecrement p u db = (inl ERR_not_integer, db).
Proof.
  intros Hs Hbig.
  unfold tryDecrement, luaScript, bind, ret, Redis.GET. rewrite Hs. cbn [tonumber].
  rewrite round_double_pos.
  replace (0 <? n) with true
    by (symmetry; apply Z.ltb_lt; unfold INT64_MAX in Hbig; lia).
  now rewrite (DECR_out_of_range _ n db Hs Hbig).
Qed.

(** An invocation for another product leaves the record of a product alone. *)
Lemma tryDecrement_other (p q u : string) (db : keyspace) (s : Z) (l : list string) :
  p <> q -> product_state p db s l -> product_state p (tryDecrement q u db).2 s l.
Proof.
  intros Hpq (Hs & Hl & Hb).
  assert (Fs : (tryDecrement q u db).2 !! stockKey p = db !! stockKey p).
  { apply luaScript_frame; [now apply stockKey_ne | apply stockKey_ne_buyersKey]. }
  assert (Fb : (tryDecrement q u db).2 !! buyersKey p = db !! buyersKey p).
  { apply luaScript_frame;
      [intros E; symmetry in E; revert E; apply stockKey_ne_buyersKey
      | now apply buyersKey_ne]. }
  unfold product_state, buyer_ledger in *. rewrite Fs, Fb. auto.
Qed.

(** The record of a product after one invocation for it: a unit sold, or
    nothing changed, for want of stock or for a counter [DECR] refuses. *)
Lemma tryDecrement_same (p u : string) (db : keyspace) (s : Z) (l : list string) :
  product_state p db s l ->
  (0 < s /\ s <= INT64_MAX
   /\ (tryDecrement p u db).1 = inr [1; reported_remaining s]
   /\ product_state p (tryDecrement p u db).2 (s - 1) (u :: l))
  \/ (s <= 0 /\ tryDecrement p u db = (inr [0; 0], db))
  \/ (INT64_MAX < s /\ tryDecrement p u db = (inl ERR_not_integer, db)).
Proof.
  intros (Hs & Hl & Hb).
  destruct (Z.lt_ge_cases 0 s) as [Hpos|Hle].
  - destruct (Z.le_gt_cases s INT64_MAX) as [Hmax|Hbig].
    + left. split; [exact Hpos|]. split; [exact Hmax|].
      rewrite (tryDecrement_in_stock p u db s Hs Hpos Hmax Hb). simpl.
      split; [reflexivity|]. unfold product_state, buyer_ledger.
      rewrite lookup_insert_ne
        by (intros E; symmetry in E; revert E; apply stockKey_ne_buyersKey).
      rewrite lookup_insert_eq. rewrite lookup_insert_eq.
      split; [reflexivity|]. split; [now rewrite <- Hl | discriminate].
    + right. right. split; [exact Hbig|]. now apply (tryDecrement_too_large p u db s).
  - right. left. split; [exact Hle|].
    apply tryDecrement_no_stock. right. eauto.
Qed.

(** [initProduct] leaves the product with the given stock and an empty ledger. *)
Lemma initProduct_state (p : string) (N : Z) (db : keyspace) :
  product_state p (initProduct p N db) N [].
Proof.
  unfold product_state, buyer_ledger, initProduct, Redis.SET, Redis.DEL. simpl.
  rewrite lookup_delete_ne by (intros E; symmetry in E; revert E; apply stockKey_ne_buyersKey).
  rewrite lookup_insert_eq, lookup_delete_eq.
  split; [reflexivity|]. split; [reflexivity | discriminate].
Qed.

(** [resetProduct] leaves the product without a counter and without a ledger. *)
Lemma resetProduct_state (p : string) (db : keyspace) :
  resetProduct p db !! stockKey p = None /\ resetProduct p db !! buyersKey p = None.
Proof.
  unfold resetProduct, Redis.DEL. simpl. split.
  - rewrite lookup_delete_ne by (intros E; symmetry in E; revert E; apply stockKey_ne_buyersKey).
    apply lookup_delete_eq.
  - apply lookup_delete_eq.
Qed.

(* ===================================================================== *)
(** ** Every operation keeps each key at its kind *)
(* ===================================================================== *)

Lemma typed_insert_stock (q : string) (n : Z) (db : keyspace) :
  typed db -> typed (<[stockKey q := VInt n]> db).
Proof.
  intros H p. destruct (H p) as [Hs Hb]. split.
  - intros items. destruct (decide (stockKey q = stockKey p)) as [E|E].
    + rewrite E, lookup_insert_eq. discriminate.
    + rewrite lookup_insert_ne by exact E. apply Hs.
  - intros m. rewrite lookup_insert_ne by apply stockKey_ne_buyersKey. apply Hb.
Qed.

Lemma typed_insert_buyers (q : string) (l : list string) (db : keyspace) :
  typed db -> typed (<[buyersKey q := VList l]> db).
Proof.
  intros H p. destruct (H p) as [Hs Hb]. split.
  - intros items.
    rewrite lookup_insert_ne
      by (intros E; symmetry in E; revert E; apply stockKey_ne_buyersKey).
    apply Hs.
  - intros m. destruct (decide (buyersKey q = buyersKey p)) as [E|E].
    + rewrite E, lookup_insert_eq. discriminate.
    + rewrite lookup_insert_ne by exact E. apply Hb.
Qed.

Lemma typed_delete (k : string) (db : keyspace) : typed db -> typed (delete k db).
Proof.
  intros H p. destruct (H p) as [Hs Hb]. split.
  - intros items E. apply lookup_delete_Some in E as [_ E]. now apply (Hs items).
  - intros m E. apply lookup_delete_Some in E as [_ E]. now apply (Hb m).
Qed.

Lemma typed_empty : typed ∅.
Proof. intros p. split; intros x; rewrite lookup_empty; discriminate. Qed.

Lemma tryDecrement_typed (q u : string) (db : keyspace) :
  typed db -> typed (tryDecrement q u db).2.
Proof.
  intros H. unfold tryDecrement.
  destruct (luaScript_writes (stockKey q) (buyersKey q) u db)
    as [E|[(n & E)|(n & l & E)]]; rewrite E.
  - exact H.
  - now apply typed_insert_stock.
  - now apply typed_insert_buyers, typed_insert_stock.
Qed.

Lemma initProduct_typed (p : string) (N : Z) (db : keyspace) :
  typed db -> typed (initProduct p N db).
Proof.
  intros H. unfold initProduct, Redis.SET, Redis.DEL. simpl.
  now apply typed_delete, typed_insert_stock.
Qed.

Lemma resetProduct_typed (p : string) (db : keyspace) :
  typed db -> typed (resetProduct p db).
Proof.
  intros H. unfold resetProduct, Redis.DEL. simpl.
  now apply typed_delete, typed_delete.
Qed.

Lemma run_typed (h : history) (db : keyspace) : typed db -> typed (run h db).2.
Proof.
  revert db. induction h as [|[q u] h IH]; intros db H; simpl; [exact H|].
  destruct (tryDecrement q u db) as [reply db1] eqn:E1.
  destruct (run h db1) as [replies db2] eqn:E2. simpl.
  specialize (IH db1). rewrite E2 in IH. apply IH.
  pose proof (tryDecrement_typed q u db H) as T. now rewrite E1 in T.
Qed.

(* ===================================================================== *)
(** ** Histories *)
(* ===================================================================== *)

Lemma run_cons (q u : string) (h : history) (db : keyspace) :
  (run ((q, u) :: h) db).2 = (run h (tryDecrement q u db).2).2.
Proof.
  simpl. destruct (tryDecrement q u db) as [reply db1]. simpl.
  destruct (run h db1) as [replies db2]. reflexivity.
Qed.

Lemma run_app (h1 h2 : history) (db : keyspace) :
  (run (h1 ++ h2) db).2 = (run h2 (run h1 db).2).2.
Proof.
  revert db. induction h1 as [|[q u] h1 IH]; intros db; [reflexivity|].
  rewrite <- app_comm_cons, !run_cons. apply IH.
Qed.

Lemma winners_cons (p q u : string) (h : history) (db : keyspace) :
  winners p ((q, u) :: h) db
  = if String.eqb q p && decremented (tryDecrement q u db).1
    then u :: winners p h (tryDecrement q u db).2
    else winners p h (tryDecrement q u db).2.
Proof. simpl. destruct (tryDecrement q u db) as [reply db1]. reflexivity. Qed.

(** The record of a product along a history: the counter has gone down by
    the number of winners, and the ledger holds the winners, the latest at
    the head, on top of what it held before. *)
Lemma run_product_state (p : string) (h : history) :
  forall (db : keyspace) (s : Z) (l : list string),
    product_state p db s l ->
    product_state p (run h db).2
      (s - Z.of_nat (length (winners p h db))) (rev (winners p h db) ++ l).
Proof.
  induction h as [|[q u] h IH]; intros db s l Hst.
  - simpl. rewrite Z.sub_0_r. exact Hst.
  - rewrite run_cons, winners_cons.
    destruct (String.eqb_spec q p) as [->|Hqp].
    + destruct (tryDecrement_same p u db s l Hst)
        as [(Hpos & _ & Hr & Hst')|[(Hle & E)|(Hbig & E)]].
      * rewrite Hr. simpl.
        specialize (IH _ _ _ Hst').
        rewrite <- app_assoc. simpl.
        replace (s - Z.of_nat (S (length (winners p h (tryDecrement p u db).2))))
          with (s - 1 - Z.of_nat (length (winners p h (tryDecrement p u db).2))) by lia.
        exact IH.
      * rewrite E. simpl. apply IH; assumption.
      * rewrite E. simpl. apply IH; assumption.
    + simpl. apply IH. apply tryDecrement_other; [congruence | assumption].
Qed.

(** A counter that starts non-negative never goes below zero. *)
Lemma run_stock_nonneg (p : string) (h : history) :
  forall (db : keyspace) (s : Z) (l : list string),
    product_state p db s l -> 0 <= s ->
    0 <= s - Z.of_nat (length (winners p h db)).
Proof.
  induction h as [|[q u] h IH]; intros db s l Hst Hs0.
  - simpl. lia.
  - rewrite winners_cons.
    destruct (String.eqb_spec q p) as [->|Hqp].
    + destruct (tryDecrement_same p u db s l Hst)
        as [(Hpos & _ & Hr & Hst')|[(Hle & E)|(Hbig & E)]].
      * rewrite Hr. simpl.
        specialize (IH _ _ _ Hst' ltac:(lia)). lia.
      * rewrite E. simpl. now apply (IH db s l).
      * rewrite E. simpl. now apply (IH db s l).
    + simpl. apply (IH _ s l); [|assumption].
      apply tryDecrement_other; [congruence | assumption].
Qed.

Lemma product_state_remaining (p : string) (db : keyspace) (s : Z) (l : list string) :
  product_state p db s l -> remaining_stock p db = Some s /\ buyer_ledger p db = l.
Proof.
  intros (Hs & Hl & _). unfold remaining_stock. rewrite Hs. auto.
Qed.

Lemma range_all (items : list string) : Redis.range items 0 (-1) = items.
Proof.
  unfold Redis.range. cbv zeta.
  change (0 <? 0) with false. change (-1 <? 0) with true. cbv iota.
  change (0 <? 0) with false. cbv iota.
  destruct items as [|x items]; [reflexivity|].
  set (llen := Z.of_nat (length (x :: items))).
  assert (Hl : 0 < llen) by (unfold llen; simpl; lia).
  replace (llen + -1 <? 0) with false by (symmetry; apply Z.ltb_ge; lia).
  replace (llen <=? 0) with false by (symmetry; apply Z.leb_gt; lia).
  replace (llen <=? llen + -1) with false by (symmetry; apply Z.leb_gt; lia).
  simpl orb. cbv iota.
  replace (Z.to_nat (llen + -1 - 0 + 1)) with (length (x :: items)) by (unfold llen; lia).
  change (Z.to_nat 0) with 0%nat. rewrite drop_0. apply firstn_all.
Qed.

Lemma showBuyers_ledger (p : string) (db : keyspace) :
  (forall n, db !! buyersKey p <> Some (VInt n)) ->
  showBuyers p db = inr (buyer_ledger p db).
Proof.
  intros Hb. unfold showBuyers, Redis.LRANGE, buyer_ledger.
  destruct (db !! buyersKey p) as [[n|items]|] eqn:E; simpl.
  - exfalso. now apply (Hb n).
  - now rewrite range_all.
  - reflexivity.
Qed.

(* ===================================================================== *)
(** ** Frame codec: round trip and size limit *)
(* ===================================================================== *)

Lemma PutUint32_length (v : Z) : length (BigEndian.PutUint32 v) = 4%nat.
Proof. reflexivity. Qed.

Lemma readFrame_frame (msgType : byte) (lenBuf payload rest : list byte) :
  length lenBuf = 4%nat ->
  BigEndian.Uint32 lenBuf = Z.of_nat (length payload) ->
  Z.of_nat (length payload) <= MAX_PAYLOAD ->
  readFrame (msgType :: lenBuf ++ payload ++ rest) = inr (msgType, payload, rest).
Proof.
  intros H4 Hlen Hmax. unfold readFrame.
  change (msgType :: lenBuf ++ payload ++ rest)
    with ([msgType] ++ lenBuf ++ payload ++ rest).
  rewrite (ReadFull_app [msgType]).
  rewrite <- H4, ReadFull_app. cbv zeta. rewrite Hlen.
  replace (MAX_PAYLOAD <? Z.of_nat (length payload)) with false
    by (symmetry; apply Z.ltb_ge; exact Hmax).
  rewrite Nat2Z.id, ReadFull_app. reflexivity.
Qed.

(** C5. Decoding the bytes [writeFrame] produces for a type byte and a
    payload of at most 1 MiB gives back that type byte and that payload,
    and leaves the bytes that follow the frame unread. *)
Theorem frame_round_trip (msgType : byte) (payload rest : list byte) :
  Z.of_nat (length payload) <= MAX_PAYLOAD ->
  readFrame (writeFrame msgType payload ++ rest) = inr (msgType, payload, rest).
Proof.
  intros Hmax. unfold writeFrame.
  rewrite <- !app_assoc.
  apply (readFrame_frame msgType
           (BigEndian.PutUint32 (uint32 (Z.of_nat (length payload))))).
  - apply PutUint32_length.
  - unfold uint32. assert (MAX_PAYLOAD < 2 ^ 32) by (unfold MAX_PAYLOAD; lia).
    rewrite Z.mod_small by lia. apply Uint32_PutUint32. lia.
  - exact Hmax.
Qed.

Lemma frame_round_trip_witness :
  readFrame (writeFrame x01 [x7b; x7d] ++ [x02])
  = inr (x01, [x7b; x7d], [x02]).
Proof.
  apply (frame_round_trip x01 [x7b; x7d] [x02]).
  unfold MAX_PAYLOAD. simpl. lia.
Defined.

(** The client reads back every frame whose length fits 32 bits. *)
Lemma Client_frame_round_trip (msgType : byte) (payload rest : list byte) :
  Z.of_nat (length payload) < 2 ^ 32 ->
  Client_readFrame (writeFrame msgType payload ++ rest) = inr (msgType, payload, rest).
Proof.
  intros Hmax. unfold writeFrame, Client_readFrame.
  rewrite <- !app_assoc.
  rewrite (ReadFull_app [msgType]).
  rewrite <- (PutUint32_length (uint32 (Z.of_nat (length payload)))) at 1.
  rewrite ReadFull_app. cbv zeta.
  unfold uint32. rewrite Z.mod_small by lia.
  rewrite Uint32_PutUint32 by lia.
  rewrite Nat2Z.id, ReadFull_app. reflexivity.
Qed.

Lemma readFrame_oversized (msgType : byte) (lenBuf rest : list byte) :
  length lenBuf = 4%nat ->
  MAX_PAYLOAD < BigEndian.Uint32 lenBuf ->
  readFrame (msgType :: lenBuf ++ rest)
  = inl (ErrPayloadTooLarge (BigEndian.Uint32 lenBuf)).
Proof.
  intros H4 Hbig. unfold readFrame.
  change (msgType :: lenBuf ++ rest) with ([msgType] ++ lenBuf ++ rest).
  rewrite (ReadFull_app [msgType]).
  rewrite <- H4, ReadFull_app. cbv zeta.
  replace (MAX_PAYLOAD <? BigEndian.Uint32 lenBuf) with true
    by (symmetry; apply Z.ltb_lt; exact Hbig).
  reflexivity.
Qed.

(* ===================================================================== *)
(** ** The server: one request, one connection *)
(* ===================================================================== *)

Lemma eqb_empty_false (s : string) : s <> "" -> String.eqb s "" = false.
Proof. intros H. now apply String.eqb_neq. Qed.

Section ServerProperties.

Variable json_Unmarshal : list byte -> option PurchaseRequest.

(** A validated request is answered from the reply of the script. *)
Lemma handlePurchaseAttempt_validated
    (payload : list byte) (req : PurchaseRequest) (db : keyspace) :
  json_Unmarshal payload = Some req ->
  ProductID req <> "" -> UserID req <> "" ->
  handlePurchaseAttempt json_Unmarshal payload db
  = match tryDecrement (ProductID req) (UserID req) db with
    | (inl err, db') => (json_Marshal (ERROR ("redis error: " +:+ redis_error_text err)), db')
    | (inr [success; remaining], db') =>
        if success =? 1 then (json_Marshal (SUCCESS remaining), db')
        else (json_Marshal SOLD_OUT, db')
    | (inr _, db') => (json_Marshal (ERROR "invalid lua response"), db')
    end.
Proof.
  intros Hdec Hp Hu. unfold handlePurchaseAttempt.
  rewrite Hdec, (eqb_empty_false _ Hp), (eqb_empty_false _ Hu). simpl orb. cbv iota.
  unfold EvalSha, tryDecrement.
  destruct (luaScript _ _ _ db) as [[err|arr] db']; [reflexivity|].
  destruct arr as [|success [|remaining [|x arr]]]; reflexivity.
Qed.


(** C4. A request whose product id or user id is empty is answered with
    ERROR "missing product_id or user_id", and the keyspace (every
    counter and every ledger) is what it was. *)
Theorem missing_id_rejected
    (payload : list byte) (req : PurchaseRequest) (db : keyspace) :
  json_Unmarshal payload = Some req ->
  ProductID req = "" \/ UserID req = "" ->
  handlePurchaseAttempt json_Unmarshal payload db
  = (json_Marshal (ERROR "missing product_id or user_id"), db).
Proof.
  intros Hdec Hempty. unfold handlePurchaseAttempt. rewrite Hdec.
  destruct Hempty as [E|E]; rewrite E; simpl String.eqb;
    [|rewrite orb_true_r]; reflexivity.
Qed.

(** C10. A validated request for a product without a stock counter
    (never initialised, or reset): the script replies [{0, 0}], the
    keyspace is unchanged, and the response is SOLD_OUT, the very payload
    a product whose counter stands at zero gets. *)
Theorem unknown_product_sold_out
    (payload : list byte) (req : PurchaseRequest) (db : keyspace) :
  json_Unmarshal payload = Some req ->
  ProductID req <> "" -> UserID req <> "" ->
  db !! stockKey (ProductID req) = None ->
  tryDecrement (ProductID req) (UserID req) db = (inr [0; 0], db)
  /\ handlePurchaseAttempt json_Unmarshal payload db = (json_Marshal SOLD_OUT, db)
  /\ (forall db0,
         db0 !! stockKey (ProductID req) = Some (VInt 0) ->
         (handlePurchaseAttempt json_Unmarshal payload db0).1 = (handlePurchaseAttempt json_Unmarshal payload db).1).
Proof.
  intros Hdec Hp Hu Hnone.
  assert (E : tryDecrement (ProductID req) (UserID req) db = (inr [0; 0], db))
    by (apply tryDecrement_no_stock; now left).
  split; [exact E|].
  rewrite (handlePurchaseAttempt_validated payload req db Hdec Hp Hu), E. simpl.
  split; [reflexivity|].
  intros db0 Hzero.
  rewrite (handlePurchaseAttempt_validated payload req db0 Hdec Hp Hu).
  rewrite (tryDecrement_no_stock (ProductID req) (UserID req) db0).
  - reflexivity.
  - right. exists 0. split; [exact Hzero | lia].
Qed.



(** C6. A frame whose declared length is above 1 MiB: [readFrame] fails
    with the too-large error, and the handler returns on that error with
    nothing written and the keyspace untouched. *)
Theorem oversized_frame_closes
    (live : nat) (msgType : byte) (lenBuf rest : list byte) (db : keyspace) :
  length lenBuf = 4%nat ->
  MAX_PAYLOAD < BigEndian.Uint32 lenBuf ->
  readFrame (msgType :: lenBuf ++ rest)
  = inl (ErrPayloadTooLarge (BigEndian.Uint32 lenBuf))
  /\ handleConnection json_Unmarshal (S live) (msgType :: lenBuf ++ rest) db
     = ([], db, ReadFailed (ErrPayloadTooLarge (BigEndian.Uint32 lenBuf))).
Proof.
  intros H4 Hbig.
  pose proof (readFrame_oversized msgType lenBuf rest H4 Hbig) as E.
  split; [exact E|]. cbn [handleConnection]. now rewrite E.
Qed.

(** Once the shutdown signal is seen the handler writes nothing more. *)
Lemma handleConnection_done (conn : list byte) (db : keyspace) :
  handleConnection json_Unmarshal 0 conn db = ([], db, CtxDone).
Proof. reflexivity. Qed.

End ServerProperties.

(* ===================================================================== *)
(** ** Worked instances of the server results *)
(* ===================================================================== *)


Lemma missing_id_rejected_witness :
  handlePurchaseAttempt decode_request
    (encode_request {| ProductID := ""; UserID := "u1" |})
    (initProduct "iphone15" 3 ∅)
  = (json_Marshal (ERROR "missing product_id or user_id"), initProduct "iphone15" 3 ∅).
Proof.
  apply (missing_id_rejected decode_request _ {| ProductID := ""; UserID := "u1" |}).
  - vm_compute. reflexivity.
  - left. reflexivity.
Defined.

Lemma unknown_product_sold_out_witness :
  handlePurchaseAttempt decode_request (encode_request sample_request)
    (resetProduct "iphone15" (initProduct "iphone15" 3 ∅))
  = (json_Marshal SOLD_OUT, resetProduct "iphone15" (initProduct "iphone15" 3 ∅)).
Proof.
  apply (unknown_product_sold_out decode_request
           (encode_request sample_request) sample_request).
  - vm_compute. reflexivity.
  - simpl. discriminate.
  - simpl. discriminate.
  - vm_compute. reflexivity.
Defined.


Lemma oversized_frame_closes_witness :
  handleConnection decode_request 1 (x01 :: [x00; x10; x00; x01] ++ [x7b; x7d]) ∅
  = ([], ∅, ReadFailed (ErrPayloadTooLarge 1048577)).
Proof.
  apply (oversized_frame_closes decode_request 0 x01 [x00; x10; x00; x01] [x7b; x7d] ∅).
  - reflexivity.
  - vm_compute. reflexivity.
Defined.


(** Above signed 64 bits [DECR] refuses the counter: with a counter of
    2^63 a validated request is answered with an error, and the counter
    stays. *)
Lemma purchase_attempt_beyond_int64 :
  handlePurchaseAttempt decode_request (encode_request sample_request)
    (initProduct "iphone15" (2 ^ 63) ∅)
  = (json_Marshal (ERROR ("redis error: " +:+ redis_error_text ERR_not_integer)),
     initProduct "iphone15" (2 ^ 63) ∅).
Proof. vm_compute. reflexivity. Qed.

(* ===================================================================== *)
(** ** Stock and ledger of a product over a history *)
(* ===================================================================== *)

(** C1. A product initialised with stock N >= 0, after any history of
    invocations (for this product or any other): the counter is there and
    not negative, counter plus ledger length is N, the ledger is as long
    as the number of invocations that reported a decrement, which is at
    most N; and one more invocation either reports a decrement, lowers the
    counter by one and adds the buyer to the ledger, or reports none and
    leaves the keyspace as it was. *)
Theorem stock_ledger_invariant (N : Z) (p : string) (db0 : keyspace) (h : history) :
  0 <= N ->
  exists stock,
    remaining_stock p (run h (initProduct p N db0)).2 = Some stock
    /\ 0 <= stock
    /\ stock + Z.of_nat (length (buyer_ledger p (run h (initProduct p N db0)).2)) = N
    /\ length (buyer_ledger p (run h (initProduct p N db0)).2)
       = length (winners p h (initProduct p N db0))
    /\ Z.of_nat (length (winners p h (initProduct p N db0))) <= N
    /\ forall u,
        let db := (run h (initProduct p N db0)).2 in
        (decremented (tryDecrement p u db).1 = true
         /\ remaining_stock p (tryDecrement p u db).2 = Some (stock - 1)
         /\ buyer_ledger p (tryDecrement p u db).2 = u :: buyer_ledger p db)
        \/ (decremented (tryDecrement p u db).1 = false
            /\ (tryDecrement p u db).2 = db).
Proof.
  intros HN.
  pose proof (initProduct_state p N db0) as Hinit.
  pose proof (run_product_state p h _ _ _ Hinit) as Hst.
  pose proof (run_stock_nonneg p h _ _ _ Hinit HN) as Hnn.
  set (db_init := initProduct p N db0) in *.
  set (w := winners p h db_init) in *.
  set (db := (run h db_init).2) in *.
  rewrite app_nil_r in Hst.
  destruct (product_state_remaining _ _ _ _ Hst) as [R L].
  exists (N - Z.of_nat (length w)).
  rewrite L, length_rev.
  repeat split; try assumption; try lia.
  intros u. cbv zeta.
  destruct (tryDecrement_same p u db _ _ Hst)
    as [(Hpos & _ & Hr & Hst')|[(Hle & E)|(Hbig & E)]].
  - left. rewrite Hr. split; [reflexivity|].
    destruct (product_state_remaining _ _ _ _ Hst') as [R' L'].
    rewrite L. auto.
  - right. rewrite E. auto.
  - right. rewrite E. auto.
Qed.

Lemma stock_ledger_invariant_witness :
  exists stock,
    remaining_stock "iphone15" (run sample_history (initProduct "iphone15" 2 ∅)).2
    = Some stock
    /\ stock
       + Z.of_nat (length (buyer_ledger "iphone15"
                             (run sample_history (initProduct "iphone15" 2 ∅)).2))
       = 2.
Proof.
  destruct (stock_ledger_invariant 2 "iphone15" ∅ sample_history)
    as (stock & H1 & _ & H2 & _).
  - lia.
  - exists stock. auto.
Defined.

(** C8, as the code has it. A product initialised and then taken through
    any history: [showBuyers] lists the buyers whose invocation reported a
    decrement in the reverse of the order of their decrements, the latest
    buyer first; and along any further history the ledger only grows at
    its head, the entries already there staying in place. *)
Theorem showBuyers_latest_first (N : Z) (p : string) (db0 : keyspace) (h : history) :
  showBuyers p (run h (initProduct p N db0)).2
  = inr (rev (winners p h (initProduct p N db0)))
  /\ forall h',
      buyer_ledger p (run (h ++ h') (initProduct p N db0)).2
      = rev (winners p h' (run h (initProduct p N db0)).2)
        ++ buyer_ledger p (run h (initProduct p N db0)).2.
Proof.
  pose proof (run_product_state p h _ _ _ (initProduct_state p N db0)) as Hst.
  rewrite app_nil_r in Hst.
  split.
  - destruct Hst as (_ & Hl & Hb).
    rewrite (showBuyers_ledger p _ Hb), Hl. reflexivity.
  - intros h'. rewrite run_app.
    pose proof (run_product_state p h' _ _ _ Hst) as Hst'.
    destruct Hst' as (_ & Hl' & _). destruct Hst as (_ & Hl & _).
    rewrite Hl', Hl. reflexivity.
Qed.

(** C8 as stated fails: with stock 2, user_1 buys before user_3, and
    [showBuyers] lists user_3 first. *)
Lemma showBuyers_first_buyer_last :
  winners "iphone15" sample_history (initProduct "iphone15" 2 ∅)
  = ["user_1"; "user_3"]%string
  /\ showBuyers "iphone15" (run sample_history (initProduct "iphone15" 2 ∅)).2
     = inr ["user_3"; "user_1"]%string
  /\ showBuyers "iphone15" (run sample_history (initProduct "iphone15" 2 ∅)).2
     <> inr (winners "iphone15" sample_history (initProduct "iphone15" 2 ∅)).
Proof.
  assert (W : winners "iphone15" sample_history (initProduct "iphone15" 2 ∅)
              = ["user_1"; "user_3"]%string) by (vm_compute; reflexivity).
  assert (B : showBuyers "iphone15" (run sample_history (initProduct "iphone15" 2 ∅)).2
              = inr ["user_3"; "user_1"]%string) by (vm_compute; reflexivity).
  split; [exact W|]. split; [exact B|].
  rewrite W, B. intros H. discriminate H.
Qed.

(* ===================================================================== *)
(** ** The last unit on the wire *)
(* ===================================================================== *)

(** The payloads of the two responses that carry no number. *)
Lemma json_text_SOLD_OUT :
  json_text SOLD_OUT
  = "{" +:+ dquote +:+ "status" +:+ dquote +:+ ":" +:+ dquote +:+ "SOLD_OUT"
        +:+ dquote +:+ "}".
Proof. reflexivity. Qed.

Lemma json_text_ERROR_missing :
  json_text (ERROR "missing product_id or user_id")
  = "{" +:+ dquote +:+ "status" +:+ dquote +:+ ":" +:+ dquote +:+ "ERROR" +:+ dquote
        +:+ "," +:+ dquote +:+ "error" +:+ dquote +:+ ":" +:+ dquote
        +:+ "missing product_id or user_id" +:+ dquote +:+ "}".
Proof. reflexivity. Qed.

Lemma json_text_ERROR_unknown :
  json_text (ERROR "unknown message type")
  = "{" +:+ dquote +:+ "status" +:+ dquote +:+ ":" +:+ dquote +:+ "ERROR" +:+ dquote
        +:+ "," +:+ dquote +:+ "error" +:+ dquote +:+ ":" +:+ dquote
        +:+ "unknown message type" +:+ dquote +:+ "}".
Proof. reflexivity. Qed.

(** [json.Marshal] leaves [remaining_stock] out of a SUCCESS response whose
    remaining stock is zero, and writes it for any other value. *)
Lemma json_text_SUCCESS (remaining : Z) :
  json_text (SUCCESS remaining)
  = if remaining =? 0
    then "{" +:+ dquote +:+ "status" +:+ dquote +:+ ":" +:+ dquote +:+ "SUCCESS"
             +:+ dquote +:+ "}"
    else "{" +:+ dquote +:+ "status" +:+ dquote +:+ ":" +:+ dquote +:+ "SUCCESS"
             +:+ dquote +:+ "," +:+ dquote +:+ "remaining_stock" +:+ dquote +:+ ":"
             +:+ json_int remaining +:+ "}".
Proof.
  unfold json_text, SUCCESS. cbn [Status RemainingStock Error].
  destruct (remaining =? 0); reflexivity.
Qed.

(** C7, on the code. Stock 1 and two attempts by the same user: the first
    is answered [{"status":"SUCCESS"}], with no [remaining_stock] member in
    the payload although the counter went to 0; the second is answered
    [{"status":"SOLD_OUT"}]; the ledger holds the user once. *)
Theorem last_unit_payload :
  let payload := encode_request sample_request in
  let db0 := initProduct "iphone15" 1 ∅ in
  let first := handlePurchaseAttempt decode_request payload db0 in
  let second := handlePurchaseAttempt decode_request payload first.2 in
  string_of_list_byte first.1
  = "{" +:+ dquote +:+ "status" +:+ dquote +:+ ":" +:+ dquote +:+ "SUCCESS" +:+ dquote +:+ "}"
  /\ first.1 = json_Marshal (SUCCESS 0)
  /\ remaining_stock "iphone15" first.2 = Some 0
  /\ string_of_list_byte second.1
     = "{" +:+ dquote +:+ "status" +:+ dquote +:+ ":" +:+ dquote +:+ "SOLD_OUT" +:+ dquote +:+ "}"
  /\ second.2 = first.2
  /\ buyer_ledger "iphone15" second.2 = ["user_1"%string].
Proof. vm_compute. repeat split; reflexivity. Qed.

(** The same user buys twice while stock remains: no deduplication. *)
Lemma same_user_buys_twice (p u : string) (N : Z) (db0 : keyspace) :
  2 <= N -> N <= INT64_MAX ->
  winners p [(p, u); (p, u)] (initProduct p N db0) = [u; u]
  /\ buyer_ledger p (run [(p, u); (p, u)] (initProduct p N db0)).2 = [u; u].
Proof.
  intros HN Hmax.
  pose proof (initProduct_state p N db0) as H0.
  destruct (tryDecrement_same p u _ _ _ H0) as [(_ & _ & R1 & H1)|[(Hle & _)|(Hbig & _)]];
    [|lia|lia].
  destruct (tryDecrement_same p u _ _ _ H1) as [(_ & _ & R2 & H2)|[(Hle & _)|(Hbig & _)]];
    [|lia|lia].
  rewrite !winners_cons, !run_cons, R1, String.eqb_refl. simpl.
  rewrite R2. simpl. split; [reflexivity|].
  now destruct (product_state_remaining _ _ _ _ H2).
Qed.

(* ===================================================================== *)
(** ** Keys, and what one run of the script can do *)
(* ===================================================================== *)

(** X1. The keys of the products never collide: two products share a
    stock key, or a buyers key, only when they are the same product, and no
    stock key is the buyers key of any product, whatever the characters of
    the product ids. *)
Theorem product_keys_distinct (p q : string) :
  (stockKey p = stockKey q <-> p = q)
  /\ (buyersKey p = buyersKey q <-> p = q)
  /\ stockKey p <> buyersKey q.
Proof.
  split; [|split].
  - split; [apply stockKey_inj | now intros ->].
  - split; [apply buyersKey_inj | now intros ->].
  - apply stockKey_ne_buyersKey.
Qed.


(** X3. A buyers key that holds a counter instead of a list: with stock
    left, within signed 64 bits, the script lowers the counter, then fails
    on the ledger insert, and the lowered counter stays; a unit is gone
    and no buyer recorded. *)
Theorem wrong_kind_ledger_loses_unit (p u : string) (db : keyspace) (n m : Z) :
  db !! stockKey p = Some (VInt n) -> 0 < n -> n <= INT64_MAX ->
  db !! buyersKey p = Some (VInt m) ->
  tryDecrement p u db = (inl WRONGTYPE, <[stockKey p := VInt (n - 1)]> db)
  /\ remaining_stock p (tryDecrement p u db).2 = Some (n - 1)
  /\ buyer_ledger p (tryDecrement p u db).2 = [].
Proof.
  intros Hs Hpos Hmax Hb.
  assert (E : tryDecrement p u db = (inl WRONGTYPE, <[stockKey p := VInt (n - 1)]> db)).
  { unfold tryDecrement, luaScript, bind, ret, Redis.GET.
    rewrite Hs. cbn [tonumber]. rewrite round_double_pos.
    replace (0 <? n) with true by (symmetry; apply Z.ltb_lt; exact Hpos).
    rewrite (DECR_counter _ n db Hs Hpos Hmax). unfold Redis.LPUSH.
    rewrite lookup_insert_ne by apply stockKey_ne_buyersKey.
    rewrite Hb. reflexivity. }
  rewrite E. simpl. split; [reflexivity|].
  unfold remaining_stock, buyer_ledger. rewrite lookup_insert_eq.
  rewrite lookup_insert_ne by apply stockKey_ne_buyersKey. rewrite Hb. auto.
Qed.

Lemma wrong_kind_ledger_loses_unit_witness :
  remaining_stock "iphone15"
    (tryDecrement "iphone15" "user_1"
       (<[buyersKey "iphone15" := VInt 7]> (initProduct "iphone15" 3 ∅))).2
  = Some 2.
Proof.
  apply (wrong_kind_ledger_loses_unit "iphone15" "user_1"
           (<[buyersKey "iphone15" := VInt 7]> (initProduct "iphone15" 3 ∅)) 3 7).
  - vm_compute. reflexivity.
  - lia.
  - unfold INT64_MAX. lia.
  - vm_compute. reflexivity.
Defined.

(* ===================================================================== *)
(** ** Keyspaces the program itself builds *)
(* ===================================================================== *)

Lemma apply_operation_typed (db : keyspace) (o : operation) :
  typed db -> typed (apply_operation db o).
Proof.
  intros H. destruct o as [p n|p|p u]; simpl.
  - now apply initProduct_typed.
  - now apply resetProduct_typed.
  - now apply tryDecrement_typed.
Qed.

Lemma apply_operations_typed (ops : list operation) (db : keyspace) :
  typed db -> typed (apply_operations ops db).
Proof.
  unfold apply_operations. revert db.
  induction ops as [|o ops IH]; intros db H; simpl; [exact H|].
  apply IH. now apply apply_operation_typed.
Qed.

(** On a product whose keys are of the right kind and whose counter, if
    any, is at most 2^53, the script does not fail. *)
Lemma tryDecrement_well_typed (p u : string) (db : keyspace) :
  well_typed p db -> counters_within db ->
  tryDecrement p u db = (inr [0; 0], db)
  \/ exists n,
      0 <= n
      /\ tryDecrement p u db
         = (inr [1; n],
            <[buyersKey p := VList (u :: buyer_ledger p db)]>
              (<[stockKey p := VInt n]> db)).
Proof.
  intros [Hts Htb] Hcw.
  destruct (db !! stockKey p) as [[n|items]|] eqn:Hs.
  - destruct (Z.lt_ge_cases 0 n) as [Hpos|Hle].
    + right. exists (n - 1). split; [lia|].
      pose proof (Hcw _ _ Hs) as Hn.
      rewrite (tryDecrement_in_stock p u db n Hs Hpos) by
        first [exact Htb | unfold INT64_MAX; lia].
      now rewrite (reported_remaining_exact n Hpos Hn).
    + left. apply tryDecrement_no_stock. right. eauto.
  - exfalso. now apply (Hts items).
  - left. apply tryDecrement_no_stock. now left.
Qed.

Lemma counters_within_insert (k : string) (v : value) (db : keyspace) :
  counters_within db ->
  (forall n, v = VInt n -> n <= 2 ^ 53) ->
  counters_within (<[k := v]> db).
Proof.
  intros H Hv k' n. rewrite lookup_insert. case_decide.
  - intros [= E]. now apply Hv.
  - apply H.
Qed.

Lemma counters_within_delete (k : string) (db : keyspace) :
  counters_within db -> counters_within (delete k db).
Proof.
  intros H k' n E. apply lookup_delete_Some in E as [_ E]. exact (H _ _ E).
Qed.

Lemma apply_operation_within (db : keyspace) (o : operation) :
  match o with Init _ stock => stock <= 2 ^ 53 | _ => True end ->
  typed db -> counters_within db ->
  counters_within (apply_operation db o).
Proof.
  intros Ho Ht Hc. destruct o as [p n|p|p u]; simpl.
  - unfold initProduct, Redis.SET, Redis.DEL. simpl.
    apply counters_within_delete, counters_within_insert; [exact Hc|].
    now intros m [= <-].
  - unfold resetProduct, Redis.DEL. simpl.
    now apply counters_within_delete, counters_within_delete.
  - destruct (tryDecrement_well_typed p u db (Ht p) Hc) as [E|(n & Hn & E)];
      rewrite E; [exact Hc|]. simpl.
    apply counters_within_insert; [|discriminate].
    apply counters_within_insert; [exact Hc|].
    intros m [= <-].
    destruct (db !! stockKey p) as [[k|items]|] eqn:Hs.
    + destruct (Z.lt_ge_cases 0 k) as [Hpos|Hle].
      * pose proof (Hc _ _ Hs) as Hk.
        rewrite (tryDecrement_in_stock p u db k Hs Hpos) in E by
          first [exact (proj2 (Ht p)) | unfold INT64_MAX; lia].
        rewrite (reported_remaining_exact k Hpos Hk) in E.
        injection E as E _. lia.
      * rewrite (tryDecrement_no_stock p u db) in E by (right; eauto). discriminate.
    + exfalso. now apply (proj1 (Ht p) items).
    + rewrite (tryDecrement_no_stock p u db) in E by now left. discriminate.
Qed.

Lemma apply_operations_within (ops : list operation) (db : keyspace) :
  inits_within ops -> typed db -> counters_within db ->
  typed (apply_operations ops db) /\ counters_within (apply_operations ops db).
Proof.
  unfold apply_operations, inits_within. revert db.
  induction ops as [|o ops IH]; intros db Ho Ht Hc; simpl; [auto|].
  apply Forall_cons in Ho as [Ho Hops].
  apply IH; [exact Hops | now apply apply_operation_typed
            | now apply apply_operation_within].
Qed.

(** X4. Inits, resets and runs of the script, in any number and order, on
    any products, keep every stock key a counter (or missing) and every
    buyers key a list (or missing), as in the empty store. *)
Theorem operations_keep_typed (ops : list operation) (db : keyspace) :
  typed db -> typed (apply_operations ops db).
Proof. apply apply_operations_typed. Qed.

Lemma operations_keep_typed_witness :
  typed (apply_operations
           [Init "iphone15" 2; Attempt "iphone15" "user_1"; Reset "iphone15";
            Attempt "iphone15" "user_1"] ∅).
Proof.
  apply (operations_keep_typed
           [Init "iphone15" 2; Attempt "iphone15" "user_1"; Reset "iphone15";
            Attempt "iphone15" "user_1"] ∅).
  intros p. split; intros x; rewrite lookup_empty; discriminate.
Defined.

(** X5. In a store that only inits, resets and runs of the script have
    written, starting empty, every init with an integer stock of at most
    2^53, a validated request is never answered with an error: the
    response is SOLD_OUT, or SUCCESS with a remaining stock that is not
    negative. *)
Theorem reachable_store_never_errors
    (json_Unmarshal : list byte -> option PurchaseRequest)
    (ops : list operation) (payload : list byte) (req : PurchaseRequest) :
  inits_within ops ->
  json_Unmarshal payload = Some req ->
  ProductID req <> "" -> UserID req <> "" ->
  (handlePurchaseAttempt json_Unmarshal payload (apply_operations ops ∅)).1
  = json_Marshal SOLD_OUT
  \/ exists remaining,
      0 <= remaining
      /\ (handlePurchaseAttempt json_Unmarshal payload (apply_operations ops ∅)).1
         = json_Marshal (SUCCESS remaining).
Proof.
  intros Hops Hdec Hp Hu.
  rewrite (handlePurchaseAttempt_validated json_Unmarshal payload req _ Hdec Hp Hu).
  destruct (apply_operations_within ops ∅ Hops typed_empty) as [Ht Hc].
  { intros k n. rewrite lookup_empty. discriminate. }
  destruct (tryDecrement_well_typed (ProductID req) (UserID req) _ (Ht _) Hc)
    as [E|(n & Hn & E)]; rewrite E.
  - now left.
  - right. exists n. split; [exact Hn | reflexivity].
Qed.

Lemma reachable_store_never_errors_witness :
  (handlePurchaseAttempt decode_request (encode_request sample_request)
     (apply_operations [Init "iphone15" 2; Attempt "iphone15" "user_3"] ∅)).1
  = json_Marshal SOLD_OUT
  \/ exists remaining,
      0 <= remaining
      /\ (handlePurchaseAttempt decode_request (encode_request sample_request)
            (apply_operations [Init "iphone15" 2; Attempt "iphone15" "user_3"] ∅)).1
         = json_Marshal (SUCCESS remaining).
Proof.
  apply (reachable_store_never_errors decode_request
           [Init "iphone15" 2; Attempt "iphone15" "user_3"]
           (encode_request sample_request) sample_request).
  - repeat constructor. lia.
  - vm_compute. reflexivity.
  - simpl. discriminate.
  - simpl. discriminate.
Defined.

(* ===================================================================== *)
(** ** Who wins, and what each winner is told *)
(* ===================================================================== *)





Lemma sold_units_countdown (p : string) (h : history) :
  forall (db : keyspace) (s : Z) (l : list string),
    product_state p db s l -> s <= 2 ^ 53 ->
    sold_units p h db
    = map (fun i => s - 1 - Z.of_nat i) (seq 0 (length (winners p h db))).
Proof.
  induction h as [|[q u] h IH]; intros db s l Hst Hex; [reflexivity|].
  rewrite winners_cons. cbn [sold_units].
  destruct (String.eqb_spec q p) as [->|Hqp].
  - destruct (tryDecrement_same p u db s l Hst)
      as [(Hpos & _ & Hr & Hst')|[(Hle & E)|(Hbig & E)]].
    + rewrite (reported_remaining_exact s Hpos Hex) in Hr.
      destruct (tryDecrement p u db) as [reply db1]. simpl in Hr, Hst'. subst reply.
      simpl. f_equal; [lia|].
      rewrite (IH _ _ _ Hst') by lia. rewrite <- seq_shift, map_map.
      apply map_ext. intros i. lia.
    + rewrite E. simpl. apply (IH _ _ _ Hst Hex).
    + unfold INT64_MAX in Hbig. lia.
  - pose proof (tryDecrement_other p q u db s l ltac:(congruence) Hst) as Hst'.
    destruct (tryDecrement q u db) as [reply db1]. simpl in Hst'. simpl.
    destruct reply as [e|[|a [|b [|c arr]]]]; apply (IH _ _ _ Hst' Hex).
Qed.

(** X7. No unit is sold twice, up to 2^53: the invocations that get a
    decrement on a product initialised with a stock N of at most 2^53 are
    told the remaining stocks N - 1, N - 2, ... in that order, one lower
    each time, so no two of them are told the same. *)
Theorem sold_units_distinct (N : Z) (p : string) (db0 : keyspace) (h : history) :
  N <= 2 ^ 53 ->
  sold_units p h (initProduct p N db0)
  = map (fun i => N - 1 - Z.of_nat i)
        (seq 0 (length (winners p h (initProduct p N db0))))
  /\ List.NoDup (sold_units p h (initProduct p N db0)).
Proof.
  intros HN.
  pose proof (sold_units_countdown p h _ N [] (initProduct_state p N db0) HN) as E.
  split; [exact E|]. rewrite E.
  apply Finite.Injective_map_NoDup; [|apply seq_NoDup].
  intros i j Hij. lia.
Qed.

Lemma sold_units_distinct_witness :
  sold_units "iphone15" sample_history (initProduct "iphone15" 2 ∅) = [1; 0].
Proof.
  destruct (sold_units_distinct 2 "iphone15" ∅ sample_history) as [E _].
  - lia.
  - rewrite E. vm_compute. reflexivity.
Defined.

(** Above 2^53 the numbers of the script are no longer exact, and winners
    can be told the same remaining stock: with a stock of 2^53 + 2 the
    second and the third are both told 2^53 - 1. *)
Lemma sold_units_repeat_above_exact :
  sold_units "iphone15"
    [("iphone15", "user_1"); ("iphone15", "user_2"); ("iphone15", "user_3")]%string
    (initProduct "iphone15" (2 ^ 53 + 2) ∅)
  = [2 ^ 53; 2 ^ 53 - 1; 2 ^ 53 - 1].
Proof. vm_compute. reflexivity. Qed.

Lemma run_sold_out (p : string) (h : history) :
  forall db : keyspace,
    (db !! stockKey p = None
     \/ exists n, db !! stockKey p = Some (VInt n) /\ n <= 0) ->
    winners p h db = []
    /\ (run h db).2 !! stockKey p = db !! stockKey p
    /\ (run h db).2 !! buyersKey p = db !! buyersKey p.
Proof.
  induction h as [|[q u] h IH]; intros db Hso; [auto|].
  rewrite winners_cons, run_cons.
  destruct (String.eqb_spec q p) as [->|Hqp].
  - rewrite (tryDecrement_no_stock p u db Hso). simpl. now apply IH.
  - assert (Fs : (tryDecrement q u db).2 !! stockKey p = db !! stockKey p).
    { apply luaScript_frame; [apply stockKey_ne; congruence | apply stockKey_ne_buyersKey]. }
    assert (Fb : (tryDecrement q u db).2 !! buyersKey p = db !! buyersKey p).
    { apply luaScript_frame;
        [intros E; symmetry in E; revert E; apply stockKey_ne_buyersKey
        | apply buyersKey_ne; congruence]. }
    simpl. destruct (IH (tryDecrement q u db).2) as (W & S & B).
    { now rewrite Fs. }
    rewrite W, S, B, Fs, Fb. auto.
Qed.

(** X8. Sold out stays sold out: once a product has no counter, or a
    counter at zero or below, no history of invocations gets a decrement on
    it, and its counter and its ledger stay exactly as they are; only the
    admin tool brings stock back. *)
Theorem sold_out_is_final (p : string) (h : history) (db : keyspace) :
  (db !! stockKey p = None
   \/ exists n, db !! stockKey p = Some (VInt n) /\ n <= 0) ->
  winners p h db = []
  /\ remaining_stock p (run h db).2 = remaining_stock p db
  /\ buyer_ledger p (run h db).2 = buyer_ledger p db.
Proof.
  intros Hso. destruct (run_sold_out p h db Hso) as (W & S & B).
  unfold remaining_stock, buyer_ledger. rewrite S, B. auto.
Qed.

Lemma sold_out_is_final_witness :
  winners "iphone15" sample_history (initProduct "iphone15" 0 ∅) = [].
Proof.
  apply (sold_out_is_final "iphone15" sample_history (initProduct "iphone15" 0 ∅)).
  right. exists 0. split; [vm_compute; reflexivity | lia].
Defined.

(* ===================================================================== *)
(** ** The admin tool *)
(* ===================================================================== *)

Lemma showStatus_product_state (p : string) (db : keyspace) (s : Z) (l : list string) :
  product_state p db s l -> showStatus p db = Report s (Z.of_nat (length l)).
Proof.
  intros (Hs & Hl & Hb). unfold showStatus, Redis.GET, Redis.LLEN, buyer_ledger in *.
  rewrite Hs. simpl.
  destruct (db !! buyersKey p) as [[n|items]|] eqn:E; simpl.
  - exfalso. now apply (Hb n).
  - now rewrite Hl.
  - now rewrite <- Hl.
Qed.

(** X9. What [showStatus] prints for a product initialised with stock N
    and then taken through any history: the remaining stock is N less the
    number of invocations that got a decrement, and the buyer count is that
    number; the two always add up to N. *)
Theorem showStatus_accounts (N : Z) (p : string) (db0 : keyspace) (h : history) :
  showStatus p (run h (initProduct p N db0)).2
  = Report (N - Z.of_nat (length (winners p h (initProduct p N db0))))
           (Z.of_nat (length (winners p h (initProduct p N db0)))).
Proof.
  pose proof (run_product_state p h _ _ _ (initProduct_state p N db0)) as Hst.
  rewrite (showStatus_product_state _ _ _ _ Hst), length_app, length_rev. simpl.
  now rewrite Nat.add_0_r.
Qed.

Lemma lookup_resetProduct_ne (p k : string) (db : keyspace) :
  k <> stockKey p -> k <> buyersKey p -> resetProduct p db !! k = db !! k.
Proof.
  intros Hs Hb. unfold resetProduct, Redis.DEL. simpl.
  now rewrite !lookup_delete_ne by congruence.
Qed.

Lemma lookup_initProduct_ne (p k : string) (N : Z) (db : keyspace) :
  k <> stockKey p -> k <> buyersKey p -> initProduct p N db !! k = db !! k.
Proof.
  intros Hs Hb. unfold initProduct, Redis.SET, Redis.DEL. simpl.
  rewrite lookup_delete_ne by congruence. now rewrite lookup_insert_ne by congruence.
Qed.

(** X10. [resetProduct], on any keyspace, whether the product exists or
    not and whatever its keys hold: afterwards [showStatus] prints "not
    found" and [showBuyers] lists nobody; a second reset changes nothing;
    and no key but the two of the product is touched. *)
Theorem resetProduct_forgets (p : string) (db : keyspace) :
  showStatus p (resetProduct p db) = NotFound
  /\ showBuyers p (resetProduct p db) = inr []
  /\ resetProduct p (resetProduct p db) = resetProduct p db
  /\ forall k, k <> stockKey p -> k <> buyersKey p -> resetProduct p db !! k = db !! k.
Proof.
  destruct (resetProduct_state p db) as [Hs Hb].
  split; [|split; [|split]].
  - unfold showStatus, Redis.GET. now rewrite Hs.
  - unfold showBuyers, Redis.LRANGE. now rewrite Hb.
  - apply map_eq. intros k.
    destruct (decide (k = stockKey p)) as [->|Ns];
      [destruct (resetProduct_state p (resetProduct p db)) as [E _]; now rewrite E, Hs|].
    destruct (decide (k = buyersKey p)) as [->|Nb];
      [destruct (resetProduct_state p (resetProduct p db)) as [_ E]; now rewrite E, Hb|].
    now rewrite lookup_resetProduct_ne.
  - intros k. apply lookup_resetProduct_ne.
Qed.

(** X11. [initProduct], on any keyspace, in the middle of a sale or with
    keys of the wrong kind: afterwards [showStatus] prints stock N and no
    buyer and [showBuyers] lists nobody, so an earlier ledger is gone; an
    init over an init leaves only the later stock; and no key but the two
    of the product is touched. *)
Theorem initProduct_starts_over (p : string) (N M : Z) (db : keyspace) :
  showStatus p (initProduct p N db) = Report N 0
  /\ showBuyers p (initProduct p N db) = inr []
  /\ initProduct p N (initProduct p M db) = initProduct p N db
  /\ forall k, k <> stockKey p -> k <> buyersKey p -> initProduct p N db !! k = db !! k.
Proof.
  pose proof (initProduct_state p N db) as Hst.
  split; [|split; [|split]].
  - now rewrite (showStatus_product_state _ _ _ _ Hst).
  - destruct Hst as (_ & Hl & Hb). now rewrite (showBuyers_ledger p _ Hb), Hl.
  - apply map_eq. intros k.
    destruct (decide (k = stockKey p)) as [->|Ns].
    { destruct (initProduct_state p N (initProduct p M db)) as (E & _).
      destruct Hst as (E' & _). now rewrite E, E'. }
    destruct (decide (k = buyersKey p)) as [->|Nb].
    { unfold initProduct, Redis.SET, Redis.DEL. simpl. now rewrite !lookup_delete_eq. }
    now rewrite !lookup_initProduct_ne.
  - intros k. apply lookup_initProduct_ne.
Qed.

(* ===================================================================== *)
(** ** What a request, and a connection, can do to the store *)
(* ===================================================================== *)

Lemma luaScript_keeps_keys (k1 k2 a k : string) (db : keyspace) :
  is_Some (db !! k) -> is_Some ((luaScript k1 k2 a db).2 !! k).
Proof.
  intros H.
  destruct (luaScript_writes k1 k2 a db) as [E|[(n & E)|(n & l & E)]]; rewrite E.
  - exact H.
  - rewrite lookup_insert. case_decide; [eauto | exact H].
  - rewrite !lookup_insert. repeat case_decide; eauto.
Qed.

Section StoreSafety.

Variable json_Unmarshal : list byte -> option PurchaseRequest.

(** The keyspace after a purchase attempt is the one the script left, when
    the request got that far, and the one before otherwise. *)
Lemma handlePurchaseAttempt_store (payload : list byte) (db : keyspace) :
  (handlePurchaseAttempt json_Unmarshal payload db).2 = db
  \/ exists req,
      json_Unmarshal payload = Some req
      /\ (handlePurchaseAttempt json_Unmarshal payload db).2
         = (tryDecrement (ProductID req) (UserID req) db).2.
Proof.
  unfold handlePurchaseAttempt, EvalSha, tryDecrement.
  destruct (json_Unmarshal payload) as [req|]; [|now left].
  destruct (String.eqb (ProductID req) "" || String.eqb (UserID req) ""); [now left|].
  right. exists req. split; [reflexivity|]. cbv zeta.
  destruct (luaScript _ _ _ db) as [[e|arr] db']; [reflexivity|].
  destruct arr as [|a [|b [|c arr]]]; try reflexivity.
  destruct (a =? 1); reflexivity.
Qed.

Lemma processMessage_store (msgType : byte) (payload : list byte) (db : keyspace) :
  (processMessage json_Unmarshal msgType payload db).2 = db
  \/ exists req,
      json_Unmarshal payload = Some req
      /\ (processMessage json_Unmarshal msgType payload db).2
         = (tryDecrement (ProductID req) (UserID req) db).2.
Proof.
  unfold processMessage.
  destruct (Byte.eqb msgType MSG_ATTEMPT_PURCHASE); [|now left].
  apply handlePurchaseAttempt_store.
Qed.

(** X12. A purchase attempt, whatever its payload, writes no key but the
    stock key and the buyers key of the product its request names: every
    other product, and every other key of the store, is as it was. *)
Theorem attempt_writes_only_its_product (payload : list byte) (db : keyspace) (k : string) :
  (forall req, json_Unmarshal payload = Some req ->
               k <> stockKey (ProductID req) /\ k <> buyersKey (ProductID req)) ->
  (handlePurchaseAttempt json_Unmarshal payload db).2 !! k = db !! k.
Proof.
  intros Hk.
  destruct (handlePurchaseAttempt_store payload db) as [E|(req & Hdec & E)]; rewrite E.
  - reflexivity.
  - destruct (Hk req Hdec) as [Hs Hb]. now apply luaScript_frame.
Qed.

Lemma processMessage_advances (p : string) (msgType : byte) (payload : list byte)
    (db : keyspace) (s : Z) (l : list string) :
  product_state p db s l ->
  exists w,
    product_state p (processMessage json_Unmarshal msgType payload db).2
      (s - Z.of_nat (length w)) (w ++ l)
    /\ (0 <= s -> 0 <= s - Z.of_nat (length w)).
Proof.
  intros Hst.
  destruct (processMessage_store msgType payload db) as [E|(req & _ & E)]; rewrite E.
  - exists []. simpl. rewrite Z.sub_0_r. auto.
  - destruct (decide (ProductID req = p)) as [<-|Hne].
    + destruct (tryDecrement_same _ (UserID req) db s l Hst)
        as [(Hpos & _ & _ & Hst')|[(Hle & E')|(Hbig & E')]].
      * exists [UserID req]. simpl. split; [exact Hst' | lia].
      * rewrite E'. exists []. simpl. rewrite Z.sub_0_r. auto.
      * rewrite E'. exists []. simpl. rewrite Z.sub_0_r. auto.
    + exists []. simpl. rewrite Z.sub_0_r. split; [|auto].
      apply tryDecrement_other; [congruence | assumption].
Qed.

(** X13. Whatever bytes a peer sends on a connection, and however long
    the handler runs, a product that has a counter and a ledger keeps its
    account: the counter only goes down, by the number of buyers added,
    the ledger only grows at its head, the entries it had staying in
    place, and a counter that was not negative does not become negative. *)
Theorem connection_keeps_account
    (live : nat) (conn : list byte) (db : keyspace)
    (p : string) (s : Z) (l : list string) :
  product_state p db s l ->
  exists w,
    product_state p (handleConnection json_Unmarshal live conn db).1.2
      (s - Z.of_nat (length w)) (w ++ l)
    /\ (0 <= s -> 0 <= s - Z.of_nat (length w)).
Proof.
  revert conn db s l.
  induction live as [|live IH]; intros conn db s l Hst.
  - exists []. simpl. rewrite Z.sub_0_r. auto.
  - cbn [handleConnection].
    destruct (readFrame conn) as [err|[[msgType payload] rest]].
    + exists []. simpl. rewrite Z.sub_0_r. auto.
    + destruct (processMessage_advances p msgType payload db s l Hst) as (w1 & H1 & N1).
      destruct (processMessage json_Unmarshal msgType payload db) as [response db1].
      simpl in H1.
      destruct (IH rest db1 _ _ H1) as (w2 & H2 & N2).
      destruct (handleConnection json_Unmarshal live rest db1) as [[written db2] why].
      simpl in H2 |- *.
      exists (w2 ++ w1). rewrite <- app_assoc, length_app.
      replace (s - Z.of_nat (length w2 + length w1))
        with (s - Z.of_nat (length w1) - Z.of_nat (length w2)) by lia.
      split; [exact H2 | intros H0; apply N2, N1, H0].
Qed.

(** X14. Whatever bytes a peer sends, the handler removes no key from the
    store, and changes no key that is not the stock key or the buyers key
    of some product. *)
Theorem connection_writes_only_product_keys
    (live : nat) (conn : list byte) (db : keyspace) (k : string) :
  (is_Some (db !! k) ->
   is_Some ((handleConnection json_Unmarshal live conn db).1.2 !! k))
  /\ ((forall p, k <> stockKey p /\ k <> buyersKey p) ->
      (handleConnection json_Unmarshal live conn db).1.2 !! k = db !! k).
Proof.
  revert conn db.
  induction live as [|live IH]; intros conn db; [simpl; auto|].
  cbn [handleConnection].
  destruct (readFrame conn) as [err|[[msgType payload] rest]]; [simpl; auto|].
  assert (Hstep :
            (is_Some (db !! k) ->
             is_Some ((processMessage json_Unmarshal msgType payload db).2 !! k))
            /\ ((forall p, k <> stockKey p /\ k <> buyersKey p) ->
                (processMessage json_Unmarshal msgType payload db).2 !! k = db !! k)).
  { destruct (processMessage_store msgType payload db) as [E|(req & _ & E)]; rewrite E.
    - auto.
    - split.
      + apply luaScript_keeps_keys.
      + intros Hk. destruct (Hk (ProductID req)). now apply luaScript_frame. }
  destruct (processMessage json_Unmarshal msgType payload db) as [response db1].
  simpl in Hstep. specialize (IH rest db1).
  destruct (handleConnection json_Unmarshal live rest db1) as [[written db2] why].
  simpl in IH |- *. destruct Hstep as [S1 S2], IH as [I1 I2].
  split; [auto|]. intros Hk. now rewrite I2, S2.
Qed.

End StoreSafety.

Lemma attempt_writes_only_its_product_witness :
  (handlePurchaseAttempt decode_request (encode_request sample_request)
     (initProduct "ipad" 5 (initProduct "iphone15" 3 ∅))).2 !! stockKey "ipad"
  = initProduct "ipad" 5 (initProduct "iphone15" 3 ∅) !! stockKey "ipad".
Proof.
  apply (attempt_writes_only_its_product decode_request).
  intros req Hreq. vm_compute in Hreq. injection Hreq as <-.
  split; vm_compute; discriminate.
Defined.

Lemma connection_keeps_account_witness :
  exists w,
    product_state "iphone15"
      (handleConnection decode_request 5 (frames_bytes sample_frames)
         (initProduct "iphone15" 1 ∅)).1.2
      (1 - Z.of_nat (length w)) (w ++ [])
    /\ (0 <= 1 -> 0 <= 1 - Z.of_nat (length w)).
Proof.
  apply (connection_keeps_account decode_request 5 (frames_bytes sample_frames)
           (initProduct "iphone15" 1 ∅) "iphone15" 1 []).
  split; [vm_compute; reflexivity|].
  split; [vm_compute; reflexivity|].
  intros n. vm_compute. discriminate.
Defined.

Lemma connection_writes_only_product_keys_witness :
  (handleConnection decode_request 5 (frames_bytes sample_frames)
     (<["config" := VInt 1]> (initProduct "iphone15" 1 ∅))).1.2 !! "config"
  = Some (VInt 1).
Proof.
  destruct (connection_writes_only_product_keys decode_request 5
              (frames_bytes sample_frames)
              (<["config" := VInt 1]> (initProduct "iphone15" 1 ∅)) "config")
    as [_ H].
  rewrite H; [vm_compute; reflexivity|].
  intros p. split; unfold stockKey, buyersKey; simpl; discriminate.
Defined.

(* ===================================================================== *)
(** ** More on the frame codec *)
(* ===================================================================== *)

Lemma ReadFull_inv (n : nat) (conn buf rest : list byte) :
  ReadFull n conn = inr (buf, rest) -> conn = buf ++ rest /\ length buf = n.
Proof.
  unfold ReadFull. destruct (decide (n <= length conn)%nat) as [Hle|Hgt].
  - intros [= <- <-]. split; [now rewrite take_drop | rewrite length_take; lia].
  - destruct conn; discriminate.
Qed.

Lemma ReadFull_short (n : nat) (conn : list byte) :
  (length conn < n)%nat ->
  ReadFull n conn = inl (match conn with [] => EOF | _ :: _ => ErrUnexpectedEOF end).
Proof.
  intros H. unfold ReadFull. rewrite decide_False by lia. now destruct conn.
Qed.

Lemma byte_of_Z_eq (v : Z) (b : byte) : v mod 256 = Z_of_byte b -> byte_of_Z v = b.
Proof.
  intros H. rewrite <- (byte_of_Z_of_byte b). unfold byte_of_Z at 1 2.
  rewrite H. rewrite (Z.mod_small (Z_of_byte b)) by apply Z_of_byte_range.
  reflexivity.
Qed.

Lemma testbit_Z_of_byte_high (b : byte) (n : Z) :
  8 <= n -> Z.testbit (Z_of_byte b) n = false.
Proof.
  intros Hn. rewrite <- (Z.mod_small (Z_of_byte b) (2 ^ 8)) by apply Z_of_byte_range.
  apply Z.mod_pow2_bits_high. lia.
Qed.

Lemma Uint32_testbit (b0 b1 b2 b3 : byte) (m : Z) :
  0 <= m ->
  Z.testbit (BigEndian.Uint32 [b0; b1; b2; b3]) m
  = Z.testbit (Z_of_byte b3) m || Z.testbit (Z_of_byte b2) (m - 8)
    || Z.testbit (Z_of_byte b1) (m - 16) || Z.testbit (Z_of_byte b0) (m - 24).
Proof.
  intros Hm. unfold BigEndian.Uint32.
  now rewrite !Z.lor_spec, !Z.shiftl_spec by lia.
Qed.

Ltac byte_bits :=
  repeat match goal with
         | |- context [Z.testbit (Z_of_byte ?b) ?i] =>
             first [ rewrite (testbit_Z_of_byte_high b i) by lia
                   | rewrite (Z.testbit_neg_r (Z_of_byte b) i) by lia ]
         end.

Lemma Uint32_byte (b0 b1 b2 b3 : byte) (k : Z) (b : byte) :
  (k = 0 /\ b = b3) \/ (k = 8 /\ b = b2) \/ (k = 16 /\ b = b1) \/ (k = 24 /\ b = b0) ->
  byte_of_Z (Z.shiftr (BigEndian.Uint32 [b0; b1; b2; b3]) k) = b.
Proof.
  intros Hk. apply byte_of_Z_eq. apply Z.bits_inj'. intros n Hn.
  change 256 with (2 ^ 8). rewrite Z.testbit_mod_pow2 by lia.
  destruct (Z.ltb_spec n 8) as [H8|H8].
  - rewrite andb_true_l, Z.shiftr_spec, Uint32_testbit by lia.
    destruct Hk as [[-> ->]|[[-> ->]|[[-> ->]|[-> ->]]]].
    + replace (n + 0) with n by lia. byte_bits. now rewrite !orb_false_r.
    + replace (n + 8 - 8) with n by lia. byte_bits. now rewrite !orb_false_r.
    + replace (n + 16 - 16) with n by lia. byte_bits. now rewrite !orb_false_r.
    + replace (n + 24 - 24) with n by lia. byte_bits. reflexivity.
  - rewrite testbit_Z_of_byte_high by lia. reflexivity.
Qed.

Lemma PutUint32_Uint32 (lenBuf : list byte) :
  length lenBuf = 4%nat -> BigEndian.PutUint32 (BigEndian.Uint32 lenBuf) = lenBuf.
Proof.
  destruct lenBuf as [|b0 [|b1 [|b2 [|b3 [|b4 l]]]]]; try discriminate. intros _.
  unfold BigEndian.PutUint32.
  rewrite (Uint32_byte b0 b1 b2 b3 24 b0), (Uint32_byte b0 b1 b2 b3 16 b1),
    (Uint32_byte b0 b1 b2 b3 8 b2) by auto.
  rewrite <- (Z.shiftr_0_r (BigEndian.Uint32 [b0; b1; b2; b3])) at 1.
  rewrite (Uint32_byte b0 b1 b2 b3 0 b3) by auto.
  reflexivity.
Qed.

Lemma Uint32_nonneg (lenBuf : list byte) : 0 <= BigEndian.Uint32 lenBuf.
Proof.
  destruct lenBuf as [|b0 [|b1 [|b2 [|b3 [|b4 l]]]]]; simpl; try lia.
  pose proof (Z_of_byte_range b0). pose proof (Z_of_byte_range b1).
  pose proof (Z_of_byte_range b2). pose proof (Z_of_byte_range b3).
  repeat (apply Z.lor_nonneg; split); try apply Z.shiftl_nonneg; lia.
Qed.

(** X15. What [readFrame] accepts: when it returns a type byte, a payload
    and a rest, the stream was exactly the frame [writeFrame] builds from
    that type byte and payload, followed by that rest, and the payload is
    at most 1 MiB; it reads the 5 + length bytes of one frame and nothing
    more. *)
Theorem readFrame_reads_one_frame
    (conn : list byte) (msgType : byte) (payload rest : list byte) :
  readFrame conn = inr (msgType, payload, rest) ->
  conn = writeFrame msgType payload ++ rest
  /\ Z.of_nat (length payload) <= MAX_PAYLOAD.
Proof.
  unfold readFrame.
  destruct (ReadFull 1 conn) as [e|[typeBuf conn1]] eqn:E1; [discriminate|].
  destruct (ReadFull 4 conn1) as [e|[lenBuf conn2]] eqn:E2; [discriminate|].
  cbv zeta. destruct (Z.ltb_spec MAX_PAYLOAD (BigEndian.Uint32 lenBuf)) as [Hbig|Hmax];
    [discriminate|].
  destruct (ReadFull (Z.to_nat (BigEndian.Uint32 lenBuf)) conn2)
    as [e|[payload' conn3]] eqn:E3; [discriminate|].
  intros [= <- <- <-].
  apply ReadFull_inv in E1 as [-> L1], E2 as [-> L2], E3 as [-> L3].
  pose proof (Uint32_nonneg lenBuf) as Hnn.
  assert (Hlen : Z.of_nat (length payload') = BigEndian.Uint32 lenBuf) by lia.
  split; [|lia].
  destruct typeBuf as [|t [|t' l]]; try discriminate. simpl nth.
  unfold writeFrame, uint32. rewrite Hlen.
  rewrite Z.mod_small by (unfold MAX_PAYLOAD in Hmax; lia).
  rewrite (PutUint32_Uint32 lenBuf L2). now rewrite <- !app_assoc.
Qed.

Lemma readFrame_reads_one_frame_witness :
  [x02; x00; x00; x00; x01; x7b; x7d] = writeFrame x02 [x7b] ++ [x7d]
  /\ Z.of_nat (length [x7b]) <= MAX_PAYLOAD.
Proof.
  apply (readFrame_reads_one_frame [x02; x00; x00; x00; x01; x7b; x7d] x02 [x7b] [x7d]).
  vm_compute. reflexivity.
Defined.

Lemma Uint32_writeFrame_header (payload : list byte) :
  Z.of_nat (length payload) <= MAX_PAYLOAD ->
  BigEndian.Uint32 (BigEndian.PutUint32 (uint32 (Z.of_nat (length payload))))
  = Z.of_nat (length payload).
Proof.
  intros Hmax. unfold uint32.
  assert (MAX_PAYLOAD < 2 ^ 32) by (unfold MAX_PAYLOAD; lia).
  rewrite Z.mod_small by lia. apply Uint32_PutUint32. lia.
Qed.

Lemma readFrame_writeFrame_app (msgType : byte) (payload rest : list byte) :
  Z.of_nat (length payload) <= MAX_PAYLOAD ->
  readFrame (writeFrame msgType payload ++ rest) = inr (msgType, payload, rest).
Proof.
  intros Hmax. unfold writeFrame. rewrite <- !app_assoc.
  apply (readFrame_frame msgType
           (BigEndian.PutUint32 (uint32 (Z.of_nat (length payload)))));
    [apply PutUint32_length | now apply Uint32_writeFrame_header | exact Hmax].
Qed.

Lemma readFrame_truncated (msgType : byte) (payload : list byte) (n : nat) :
  Z.of_nat (length payload) <= MAX_PAYLOAD ->
  (n < length (writeFrame msgType payload))%nat ->
  readFrame (take n (writeFrame msgType payload))
  = inl (if (n =? 0)%nat || (n =? 1)%nat || (n =? 5)%nat
         then EOF else ErrUnexpectedEOF).
Proof.
  intros Hmax Hn.
  pose proof (Uint32_writeFrame_header payload Hmax) as Hhdr.
  unfold writeFrame in *.
  set (lenBuf := BigEndian.PutUint32 (uint32 (Z.of_nat (length payload)))) in *.
  assert (L4 : length lenBuf = 4%nat) by reflexivity.
  destruct (decide (n < 5)%nat) as [Hlt|Hge].
  - destruct n as [|[|n]].
    + reflexivity.
    + change (take 1 ([msgType] ++ lenBuf ++ payload)) with ([msgType] ++ @nil byte).
      unfold readFrame.
      rewrite (ReadFull_app [msgType]). now rewrite ReadFull_short by (simpl; lia).
    + change ([msgType] ++ lenBuf ++ payload) with (msgType :: (lenBuf ++ payload)).
      rewrite firstn_cons, take_app_le by lia.
      unfold readFrame.
      change (msgType :: take (S n) lenBuf) with ([msgType] ++ take (S n) lenBuf).
      rewrite (ReadFull_app [msgType]).
      rewrite ReadFull_short by (rewrite length_take; lia).
      destruct (take (S n) lenBuf) eqn:E.
      * apply (f_equal length) in E. rewrite length_take in E. simpl in E. lia.
      * do 3 (destruct n as [|n]; [reflexivity|]). lia.
  - assert (E : take n ([msgType] ++ lenBuf ++ payload)
                = [msgType] ++ lenBuf ++ take (n - 5) payload).
    { rewrite app_assoc, take_app_ge by (rewrite length_app; simpl; lia).
      rewrite length_app, L4. simpl length. now rewrite <- app_assoc. }
    rewrite E. rewrite !length_app, L4 in Hn. simpl in Hn.
    unfold readFrame. rewrite (ReadFull_app [msgType]).
    rewrite <- L4 at 1. rewrite ReadFull_app. cbv zeta. rewrite Hhdr.
    replace (MAX_PAYLOAD <? Z.of_nat (length payload)) with false
      by (symmetry; apply Z.ltb_ge; exact Hmax).
    rewrite Nat2Z.id, ReadFull_short by (rewrite length_take; lia).
    destruct (decide (n = 5)%nat) as [->|Hne].
    + now rewrite Nat.sub_diag, take_0.
    + destruct (take (n - 5) payload) eqn:T.
      * apply (f_equal length) in T. rewrite length_take in T. simpl in T. lia.
      * replace (n =? 0)%nat with false by (symmetry; apply Nat.eqb_neq; lia).
        replace (n =? 1)%nat with false by (symmetry; apply Nat.eqb_neq; lia).
        replace (n =? 5)%nat with false by (symmetry; apply Nat.eqb_neq; lia).
        reflexivity.
Qed.

(** X16. A frame cut short, at any byte: the handler writes no response
    and leaves the store as it is, and returns on a read error.  The error
    is io.EOF (the one the handler does not log) when the stream ends
    before the type byte, right after it, or right after the length field;
    it is io.ErrUnexpectedEOF at every other cut. *)
Theorem truncated_frame_unanswered
    (json_Unmarshal : list byte -> option PurchaseRequest)
    (live : nat) (msgType : byte) (payload : list byte) (n : nat) (db : keyspace) :
  Z.of_nat (length payload) <= MAX_PAYLOAD ->
  (n < length (writeFrame msgType payload))%nat ->
  handleConnection json_Unmarshal (S live) (take n (writeFrame msgType payload)) db
  = ([], db,
     ReadFailed (if (n =? 0)%nat || (n =? 1)%nat || (n =? 5)%nat
                 then EOF else ErrUnexpectedEOF)).
Proof.
  intros Hmax Hn. cbn [handleConnection].
  now rewrite (readFrame_truncated msgType payload n Hmax Hn).
Qed.

Lemma truncated_frame_unanswered_witness :
  handleConnection decode_request 3
    (take 6 (writeFrame x01 (encode_request sample_request))) ∅
  = ([], ∅, ReadFailed ErrUnexpectedEOF).
Proof.
  apply (truncated_frame_unanswered decode_request 2 x01
           (encode_request sample_request) 6 ∅).
  - vm_compute. discriminate.
  - vm_compute. lia.
Defined.

Lemma Client_frame_round_trip_witness :
  Client_readFrame (writeFrame x01 [x7b; x7d] ++ [x02]) = inr (x01, [x7b; x7d], [x02]).
Proof.
  apply (Client_frame_round_trip x01 [x7b; x7d] [x02]). simpl. lia.
Defined.

(* ===================================================================== *)
(** ** Several frames on one connection *)
(* ===================================================================== *)

Lemma frames_bytes_cons (f : byte * list byte) (frames : list (byte * list byte)) :
  frames_bytes (f :: frames) = writeFrame f.1 f.2 ++ frames_bytes frames.
Proof. reflexivity. Qed.

(** X17. Frames sent back to back on one connection, each with a payload
    of at most 1 MiB: the handler answers them strictly in the order
    received, one response frame per request frame, each under the type
    byte of its request, the store passing from one request to the next.
    It answers the first [live] of them when the shutdown signal comes,
    never part of a frame, and all of them otherwise, then returns on
    io.EOF. *)
Theorem connection_answers_in_order
    (json_Unmarshal : list byte -> option PurchaseRequest)
    (live : nat) (frames : list (byte * list byte)) (db : keyspace) :
  Forall (fun f => Z.of_nat (length f.2) <= MAX_PAYLOAD) frames ->
  handleConnection json_Unmarshal live (frames_bytes frames) db
  = (frames_bytes (serve json_Unmarshal (take live frames) db).1,
     (serve json_Unmarshal (take live frames) db).2,
     if decide (live <= length frames)%nat then CtxDone else ReadFailed EOF).
Proof.
  revert frames db.
  induction live as [|live IH]; intros frames db Hall.
  - cbn [handleConnection]. rewrite take_0.
    destruct (decide (0 <= length frames)%nat); [reflexivity | lia].
  - destruct frames as [|[msgType payload] frames].
    + cbn [handleConnection]. change (frames_bytes []) with (@nil byte).
      change (readFrame []) with (@inl read_error (byte * list byte * list byte) EOF).
      destruct (decide (S live <= length (@nil (byte * list byte)))%nat) as [H|H];
        [simpl in H; lia | reflexivity].
    + apply Forall_cons in Hall as [Hmax Hall]. simpl in Hmax.
      rewrite frames_bytes_cons. cbn [handleConnection fst snd].
      rewrite (readFrame_writeFrame_app msgType payload _ Hmax).
      rewrite firstn_cons. cbn [serve].
      destruct (processMessage json_Unmarshal msgType payload db) as [response db1].
      rewrite (IH frames db1 Hall).
      destruct (serve json_Unmarshal (take live frames) db1) as [responses db2].
      simpl. do 2 f_equal.
      destruct (decide (live <= length frames)%nat);
        [rewrite decide_True by lia | rewrite decide_False by lia]; reflexivity.
Qed.

Lemma connection_answers_in_order_witness :
  handleConnection decode_request 2 (frames_bytes sample_frames) (initProduct "iphone15" 1 ∅)
  = (frames_bytes
       [(x01, json_Marshal (SUCCESS 0)); (x02, json_Marshal (ERROR "unknown message type"))],
     (serve decode_request (take 2 sample_frames) (initProduct "iphone15" 1 ∅)).2,
     CtxDone).
Proof.
  rewrite (connection_answers_in_order decode_request 2 sample_frames
             (initProduct "iphone15" 1 ∅)).
  - vm_compute. reflexivity.
  - repeat constructor; vm_compute; discriminate.
Defined.

Lemma processMessage_invocation
    (json_Unmarshal : list byte -> option PurchaseRequest)
    (msgType : byte) (payload : list byte) (db : keyspace) :
  (processMessage json_Unmarshal msgType payload db).2
  = (run (invocations json_Unmarshal [(msgType, payload)]) db).2.
Proof.
  unfold invocations, processMessage. cbn [flat_map fst snd]. rewrite app_nil_r.
  destruct (Byte.eqb msgType MSG_ATTEMPT_PURCHASE); [|reflexivity].
  destruct (json_Unmarshal payload) as [req|] eqn:Hdec;
    [|unfold handlePurchaseAttempt; now rewrite Hdec].
  destruct (String.eqb (ProductID req) "" || String.eqb (UserID req) "") eqn:Hv.
  - unfold handlePurchaseAttempt. now rewrite Hdec, Hv.
  - apply orb_false_elim in Hv as [Hp Hu].
    apply String.eqb_neq in Hp, Hu.
    rewrite (handlePurchaseAttempt_validated json_Unmarshal payload req db Hdec Hp Hu).
    rewrite run_cons. simpl run.
    destruct (tryDecrement (ProductID req) (UserID req) db) as [[e|arr] db'];
      [reflexivity|].
    destruct arr as [|a [|b [|c arr]]]; try reflexivity.
    destruct (a =? 1); reflexivity.
Qed.

Lemma invocations_cons
    (json_Unmarshal : list byte -> option PurchaseRequest)
    (f : byte * list byte) (frames : list (byte * list byte)) :
  invocations json_Unmarshal (f :: frames)
  = invocations json_Unmarshal [f] ++ invocations json_Unmarshal frames.
Proof. unfold invocations. cbn [flat_map]. now rewrite app_nil_r. Qed.

Lemma serve_invocations
    (json_Unmarshal : list byte -> option PurchaseRequest)
    (frames : list (byte * list byte)) (db : keyspace) :
  (serve json_Unmarshal frames db).2 = (run (invocations json_Unmarshal frames) db).2.
Proof.
  revert db. induction frames as [|[msgType payload] frames IH]; intros db; [reflexivity|].
  rewrite invocations_cons, run_app, <- processMessage_invocation, <- IH. cbn [serve].
  destruct (processMessage json_Unmarshal msgType payload db) as [response db1].
  cbn [snd]. destruct (serve json_Unmarshal frames db1) as [responses db2]. reflexivity.
Qed.

(** X18. What a connection does to the store: for frames sent back to
    back, each with a payload of at most 1 MiB, the keyspace the handler
    leaves is the one left by running the script once for each answered
    frame of type 0x01 whose payload decodes to a request with both ids, in
    the order of the frames.  Frames of another type, payloads that do not
    decode and requests without an id add nothing. *)
Theorem connection_runs_invocations
    (json_Unmarshal : list byte -> option PurchaseRequest)
    (live : nat) (frames : list (byte * list byte)) (db : keyspace) :
  Forall (fun f => Z.of_nat (length f.2) <= MAX_PAYLOAD) frames ->
  (handleConnection json_Unmarshal live (frames_bytes frames) db).1.2
  = (run (invocations json_Unmarshal (take live frames)) db).2.
Proof.
  revert frames db.
  induction live as [|live IH]; intros frames db Hall.
  - now rewrite take_0.
  - destruct frames as [|[msgType payload] frames]; [reflexivity|].
    apply Forall_cons in Hall as [Hmax Hall]. simpl in Hmax.
    rewrite frames_bytes_cons. cbn [handleConnection fst snd].
    rewrite (readFrame_writeFrame_app msgType payload _ Hmax), firstn_cons.
    rewrite invocations_cons, run_app, <- processMessage_invocation, <- (IH frames _ Hall).
    destruct (processMessage json_Unmarshal msgType payload db) as [response db1].
    cbn [snd].
    destruct (handleConnection json_Unmarshal live (frames_bytes frames) db1)
      as [[written db2] why].
    reflexivity.
Qed.

Lemma connection_runs_invocations_witness :
  (handleConnection decode_request 4 (frames_bytes sample_frames)
     (initProduct "iphone15" 3 ∅)).1.2
  = (run [("iphone15", "user_1"); ("iphone15", "user_1")]%string
       (initProduct "iphone15" 3 ∅)).2.
Proof.
  rewrite (connection_runs_invocations decode_request 4 sample_frames
             (initProduct "iphone15" 3 ∅)).
  - vm_compute. reflexivity.
  - repeat constructor; vm_compute; discriminate.
Defined.
